(** * WorkspacePanel: the workspace view of the agent console

    A shallow embedding of [WorkspacePanel.tsx]: the component state, the
    event handlers as asynchronous programs, and an event-loop semantics in
    which the completions of network requests interleave with user input. *)

From Stdlib Require Import String Ascii NArith ZArith List Lia Bool.
From stdpp Require Import base gmap sets list strings.
Import ListNotations.

#[local] Set Warnings "-register-all,-clear-no-such-hyp".

Local Open Scope string_scope.
Local Open Scope list_scope.

(** ** JavaScript strings

    A string is a sequence of bytes holding its text in UTF-8. A JavaScript
    string can also hold a surrogate without its partner, which UTF-8 cannot
    write: such a code unit is written here as the three bytes of its code
    point, [ED A0..BF 80..BF]. The string operations the panel uses act on
    single bytes: [toLowerCase] maps [A]..[Z] to [a]..[z] (no character
    outside ASCII lower-cases to one of the letters of the extension list
    below, so on the suffix test the byte-wise map agrees with the Unicode
    one), [endsWith] compares the tail, and [encodeURIComponent] escapes
    every byte that is not unreserved, and throws when the string holds a
    surrogate without its partner. *)

Module Js.

Definition lower_ascii (c : ascii) : ascii :=
let n := N_of_ascii c in
if ((65 <=? n) && (n <=? 90))%N then ascii_of_N (n + 32) else c.

Fixpoint toLowerCase (s : string) : string :=
match s with
| EmptyString => EmptyString
| String c r => String (lower_ascii c) (toLowerCase r)
end.

(** [s.endsWith(suffix)] *)
Definition endsWith (s suffix : string) : bool :=
let n := String.length s in
let m := String.length suffix in
if (m <=? n)%nat then String.eqb (substring (n - m) m s) suffix else false.

Definition unreserved (c : ascii) : bool :=
let n := N_of_ascii c in
(((48 <=? n) && (n <=? 57)) || ((65 <=? n) && (n <=? 90))
 || ((97 <=? n) && (n <=? 122))
 || existsb (N.eqb n) [45; 95; 46; 33; 126; 42; 39; 40; 41])%N.

Definition hex_digit (n : N) : ascii :=
if (n <? 10)%N then ascii_of_N (48 + n) else ascii_of_N (55 + n).

(** What [encodeURIComponent] writes for a string of well-formed text. *)
Fixpoint percentEncode (s : string) : string :=
match s with
| EmptyString => EmptyString
| String c r =>
    if unreserved c then String c (percentEncode r)
    else String "%" (String (hex_digit (N_of_ascii c / 16))
                    (String (hex_digit (N_of_ascii c mod 16))
                       (percentEncode r)))
end.

(** The first two bytes of a surrogate that stands without its partner. *)
Definition lone_surrogate (c d : ascii) : bool :=
let n := N_of_ascii d in
((N_of_ascii c =? 237) && (160 <=? n) && (n <=? 191))%N.

(** [s.isWellFormed()]: [s] holds no surrogate without its partner. *)
Fixpoint isWellFormed (s : string) : bool :=
match s with
| String c (String d _ as r) => negb (lone_surrogate c d) && isWellFormed r
| _ => true
end.

(** [encodeURIComponent(s)]; [None] when it throws its [URIError]. *)
Definition encodeURIComponent (s : string) : option string :=
if isWellFormed s then Some (percentEncode s) else None.

End Js.

(** ** Data model *)

(** [type: "file" | "directory"] *)
Inductive NodeType := file | directory.

(** [interface FileNode]; [children] is optional. *)
Inductive FileNode :=
  mkFileNode (name path : string) (type : NodeType)
             (children : option (list FileNode)).

Definition name (n : FileNode) : string := let (x, _, _, _) := n in x.
Definition path (n : FileNode) : string := let (_, x, _, _) := n in x.
Definition type (n : FileNode) : NodeType := let (_, _, x, _) := n in x.
Definition children (n : FileNode) : option (list FileNode) :=
  let (_, _, _, x) := n in x.

(** The value of [selectedFile] when it is not [null]. *)
Module Selected.
Record t := mk { path : string; content : string; name : string }.
End Selected.

(** The value of [deleteConfirmation] when it is not [null]. *)
Module DeleteConfirmation.
Record t := mk { file : FileNode; isOpen : bool }.
End DeleteConfirmation.

(** The seven [useState] cells of the component. *)
Module State.
Record t := mk {
  fileTree : list FileNode;
  expandedFolders : gset string;
  selectedFile : option Selected.t;
  loading : bool;
  error : option string;
  deleteConfirmation : option DeleteConfirmation.t;
  isDragOver : bool }.

(** What the first render sees. *)
Definition initial : t := mk [] ∅ None false None None false.
End State.

(** ** The browser interface *)

(** A thrown value: an [Error] with its message, or anything else. *)
Inductive Exn := Error (message : string) | Thrown.

(** How a promise settles, or how a call returns. *)
Inductive Outcome (A : Type) := Resolved (x : A) | Rejected (e : Exn).
Arguments Resolved {A} x.
Arguments Rejected {A} e.

Inductive Method := GET | POST | DELETE.

(** A [File] handed to the upload. *)
Module File.
Record t := mk { name : string; bytes : string }.
End File.

Record Response := { ok : bool; statusText : string }.
(** The parsed body of a file response, [{ content: string }]. *)
Record Json := { content : string }.
(** What [getWorkspaceTree] resolves to, [{ tree?: FileNode[] }]. *)
Record TreeData := { tree : option (list FileNode) }.
Inductive Blob := mkBlob (bytes : string).
Definition ObjectURL := string.
(** The [<a>] element the download creates. *)
Record Anchor := { href : ObjectURL; download : string }.

(** The promises a handler awaits. *)
Inductive Op :=
| fetch (url : string) (method : Method) (body : option File.t)
| response_json
| response_blob
| import_workspaceService
| getWorkspaceTree.

Definition ans (op : Op) : Type :=
  match op with
  | fetch _ _ _ => Response
  | response_json => Json
  | response_blob => Blob
  | import_workspaceService => unit
  | getWorkspaceTree => TreeData
  end.

(** Synchronous calls into the browser whose result the handler uses, or
    which may throw. *)
Inductive SyncCall :=
| createObjectURL (b : Blob)
| click (a : Anchor).

Definition sret (c : SyncCall) : Type :=
  match c with
  | createObjectURL _ => ObjectURL
  | click _ => unit
  end.

(** Synchronous effects with no result: the state setters, the notices
    and the remaining DOM calls. *)
Inductive Action :=
| setFileTree (v : list FileNode)
| setExpandedFolders (v : gset string)
| setSelectedFile (v : option Selected.t)
| setLoading (v : bool)
| setError (v : option string)
| setDeleteConfirmation (v : option DeleteConfirmation.t)
| setIsDragOver (v : bool)
| alert (msg : string)
| console_error (msg : string)
| appendChild (a : Anchor)
| removeChild (a : Anchor)
| revokeObjectURL (u : ObjectURL).

(** ** Asynchronous programs

    The body of an [async] function in continuation-passing style. [Await]
    is a suspension point; [All] is [Promise.all] over promises that are
    already running. *)
Inductive Async : Type :=
| Done
| Throw (e : Exn)
| Act (a : Action) (k : Async)
| Call (c : SyncCall) (k : Outcome (sret c) -> Async)
| Await (op : Op) (k : Outcome (ans op) -> Async)
| All (ps : list Async) (k : Outcome unit -> Async).

(** [p] with its normal end continued by [normal] and its exceptional end
    by [abrupt]. The promises under an [All] settle on their own. *)
Fixpoint on_exit (p : Async) (normal : Async) (abrupt : Exn -> Async) : Async :=
  match p with
  | Done => normal
  | Throw e => abrupt e
  | Act a k => Act a (on_exit k normal abrupt)
  | Call c k => Call c (fun o => on_exit (k o) normal abrupt)
  | Await op k => Await op (fun o => on_exit (k o) normal abrupt)
  | All ps k => All ps (fun o => on_exit (k o) normal abrupt)
  end.

(** [p; q] *)
Definition seq (p q : Async) : Async := on_exit p q Throw.
(** [try { body } catch (err) { handler err }] *)
Definition try_catch (body : Async) (handler : Exn -> Async) : Async :=
  on_exit body Done handler.
(** [try { body } finally { fin }] *)
Definition try_finally (body fin : Async) : Async :=
  on_exit body fin (fun e => seq fin (Throw e)).

(** [await op]: a rejection is thrown at the suspension point. *)
Definition await (op : Op) (k : ans op -> Async) : Async :=
  Await op (fun o => match o with Resolved x => k x | Rejected e => Throw e end).
(** A call that may throw. *)
Definition call (c : SyncCall) (k : sret c -> Async) : Async :=
  Call c (fun o => match o with Resolved x => k x | Rejected e => Throw e end).
(** [await Promise.all(ps)] *)
Definition await_all (ps : list Async) (k : Async) : Async :=
  All ps (fun o => match o with Resolved _ => k | Rejected e => Throw e end).
(** [encodeURIComponent(s)] inside the template literal of a URL: its
    [URIError] is thrown where the URL is built, before the request. *)
Definition encodeURIComponent (s : string) (k : string -> Async) : Async :=
  match Js.encodeURIComponent s with
  | Some component => k component
  | None => Throw (Error "URI malformed")
  end.

Declare Scope async_scope.
Delimit Scope async_scope with async.
Bind Scope async_scope with Async.
Notation "'let*' x ':=' m 'in' k" := (m (fun x => k))
  (at level 10, x name, m at level 100, k at level 200, only parsing)
  : async_scope.
Notation "a ;; k" := (Act a k)
  (at level 100, k at level 200, right associativity) : async_scope.

(** ** The handlers of [WorkspacePanel] *)

Local Open Scope async_scope.

(** [loadWorkspaceTree] is memoised with no dependencies: it reads no state
    cell. *)
Definition loadWorkspaceTree : Async :=
  try_catch
    (setError None ;;
     let* _ := await import_workspaceService in
     let* data := await getWorkspaceTree in
     setFileTree (default [] (tree data)) ;;
     Done)
    (fun err =>
     console_error "Error loading workspace:" ;;
     setError (Some "Error loading workspace") ;;
     Done).

Definition textExtensions : list string :=
  [".txt"; ".md"; ".json"; ".yaml"; ".yml"; ".log"; ".csv"; ".html"; ".css";
   ".js"; ".ts"; ".py"].

Definition isTextFile (fileName : string) : bool :=
  existsb (fun ext => Js.endsWith (Js.toLowerCase fileName) ext) textExtensions.

(** One upload, the body of the arrow function under [files.map]. *)
Definition uploadOne (f : File.t) : Async :=
  let* response := await (fetch "/api/workspace/upload" POST (Some f)) in
  if negb (ok response) then
    Throw (Error ("Failed to upload " +:+ File.name f +:+ ": "
                  +:+ statusText response))
  else
    let* _ := await response_json in
    Done.

Definition handleFileUpload (files : list File.t) : Async :=
  setLoading true ;;
  setError None ;;
  try_finally
    (try_catch
       (let uploadPromises := map uploadOne files in
        await_all uploadPromises
          (seq loadWorkspaceTree
          Done))
       (fun err =>
        console_error "Error uploading files:" ;;
        setError (Some ("Upload failed: "
                        +:+ match err with
                            | Error message => message
                            | Thrown => "Unknown error"
                            end)) ;;
        Done))
    (setLoading false ;;
     Done).

Definition handleDownload (filePath fileName : string) : Async :=
  try_catch
    (let* component := encodeURIComponent filePath in
     let* response :=
       await (fetch ("/api/workspace/download?path=" +:+ component)
                GET None) in
     if ok response then
       let* blob := await response_blob in
       let* url := call (createObjectURL blob) in
       let a := {| href := url; download := fileName |} in
       appendChild a ;;
       let* _ := call (click a) in
       revokeObjectURL url ;;
       removeChild a ;;
       Done
     else
       alert "Failed to download file" ;;
       Done)
    (fun err =>
     console_error "Error downloading file:" ;;
     alert "Error downloading file" ;;
     Done).

(** The handlers below close over the state cells of the render that
    created them. *)
Section Render.

Variable expandedFolders : gset string.
Variable selectedFile : option Selected.t.
Variable deleteConfirmation : option DeleteConfirmation.t.

(** The set [toggleFolder] hands to [setExpandedFolders]. *)
Definition newExpanded (path : string) : gset string :=
  if decide (path ∈ expandedFolders)
  then expandedFolders ∖ {[path]}
  else expandedFolders ∪ {[path]}.

Definition toggleFolder (path : string) : Async :=
  setExpandedFolders (newExpanded path) ;;
  Done.

Definition handleFileClick (f : FileNode) : Async :=
  match type f with
  | directory => toggleFolder (path f)
  | file =>
      if negb (isTextFile (name f)) then
        alert "Only text and markdown files can be previewed" ;;
        Done
      else
        setLoading true ;;
        try_finally
          (try_catch
             (let* component := encodeURIComponent (path f) in
              let* response :=
                await (fetch ("/api/workspace/file?path=" +:+ component)
                         GET None) in
              if ok response then
                let* data := await response_json in
                setSelectedFile
                  (Some (Selected.mk (path f) (content data) (name f))) ;;
                Done
              else
                alert "Failed to load file" ;;
                Done)
             (fun err =>
              console_error "Error loading file:" ;;
              alert "Error loading file" ;;
              Done))
          (setLoading false ;;
           Done)
  end.

(** Disabled in the source: the body is commented out. *)
Definition handleDeleteClick (f : FileNode) : Async := Done.

Definition handleDeleteConfirm : Async :=
  match deleteConfirmation with
  | None => Done
  | Some confirmation =>
      let f := DeleteConfirmation.file confirmation in
      setLoading true ;;
      try_finally
        (try_catch
           (let* component := encodeURIComponent (path f) in
            let* response :=
              await (fetch ("/api/workspace/file?path=" +:+ component)
                       DELETE None) in
            if ok response then
              seq loadWorkspaceTree
              (match selectedFile with
               | Some sel =>
                   if String.eqb (Selected.path sel) (path f) then
                     setSelectedFile None ;;
                     Done
                   else Done
               | None => Done
               end)
            else
              alert "Failed to delete file" ;;
              Done)
           (fun err =>
            console_error "Error deleting file:" ;;
            alert "Error deleting file" ;;
            Done))
        (setLoading false ;;
         setDeleteConfirmation None ;;
         Done)
  end.

Definition handleDeleteCancel : Async :=
  setDeleteConfirmation None ;;
  Done.

End Render.

(** ** The tree view *)

Inductive Chevron := ChevronDown | ChevronRight.

(** One [<div key=...>] of the rendered tree: the item line and, under an
    expanded directory with children, the nested rows. *)
Inductive Row :=
  mkRow (key : string) (marginLeft : nat) (highlighted : bool)
        (chevron : option Chevron) (itemName : string) (downloadButton : bool)
        (folderChildren : option (list Row)).

Section View.

Variable expandedFolders : gset string.
Variable highlightedFile : option string.

Fixpoint renderNode (level : nat) (node : FileNode) {struct node} : Row :=
  match node with
  | mkFileNode nm p ty ch =>
      mkRow p (level * 16)
        (bool_decide (highlightedFile = Some p))
        (match ty with
         | directory =>
             Some (if decide (p ∈ expandedFolders)
                   then ChevronDown else ChevronRight)
         | file => None
         end)
        nm
        (match ty with file => true | directory => false end)
        (match ty with
         | directory =>
             if decide (p ∈ expandedFolders) then
               match ch with
               | Some nodes => Some (map (renderNode (level + 1)) nodes)
               | None => None
               end
             else None
         | file => None
         end)
  end.

Definition renderFileTree (nodes : list FileNode) (level : nat) : list Row :=
  map (renderNode level) nodes.

End View.

(** Every path that occurs in a tree. *)
Fixpoint node_paths (node : FileNode) : gset string :=
  match node with
  | mkFileNode _ p _ ch =>
      {[p]} ∪ match ch with
              | Some nodes => ⋃ (map node_paths nodes)
              | None => ∅
              end
  end.

Definition tree_paths (nodes : list FileNode) : gset string :=
  ⋃ (map node_paths nodes).

(** ** The event loop

    A handler runs until it suspends on a promise; the completion of a
    promise is a later event that resumes it. Between the two, any other
    event may run. *)

(** How the environment settles a promise. *)
Inductive Answer :=
| rejects (e : Exn)
| responds (r : Response)
| parses (j : Json)
| reads (b : Blob)
| loads
| lists (t : TreeData).

(** What an observer of the page sees, in order. *)
Inductive Entry :=
| did (a : Action)
| called (c : SyncCall)
| issued (id : nat) (op : Op)
| settled (id : nat) (a : Answer).

(** A suspended handler. [SDone] and [SFailed] are settled: a handler that
    ends leaves the pool, so there they occur under [SAll] only, as the
    settled promises of a [Promise.all]. *)
Inductive Susp :=
| SDone
| SFailed (e : Exn)
| SAwait (id : nat) (op : Op) (k : Outcome (ans op) -> Async)
| SAll (cs : list Susp) (k : Outcome unit -> Async).

Definition decode (op : Op) (a : Answer) : option (Outcome (ans op)) :=
  match op as o return option (Outcome (ans o)) with
  | fetch _ _ _ =>
      match a with
      | rejects e => Some (Rejected e) | responds r => Some (Resolved r)
      | _ => None
      end
  | response_json =>
      match a with
      | rejects e => Some (Rejected e) | parses j => Some (Resolved j)
      | _ => None
      end
  | response_blob =>
      match a with
      | rejects e => Some (Rejected e) | reads b => Some (Resolved b)
      | _ => None
      end
  | import_workspaceService =>
      match a with
      | rejects e => Some (Rejected e) | loads => Some (Resolved tt)
      | _ => None
      end
  | getWorkspaceTree =>
      match a with
      | rejects e => Some (Rejected e) | lists t => Some (Resolved t)
      | _ => None
      end
  end.

Definition perform (a : Action) (s : State.t) : State.t :=
  let (t, x, f, l, e, d, g) := s in
  match a with
  | setFileTree v => State.mk v x f l e d g
  | setExpandedFolders v => State.mk t v f l e d g
  | setSelectedFile v => State.mk t x v l e d g
  | setLoading v => State.mk t x f v e d g
  | setError v => State.mk t x f l v d g
  | setDeleteConfirmation v => State.mk t x f l e v g
  | setIsDragOver v => State.mk t x f l e d v
  | alert _ | console_error _ | appendChild _ | removeChild _
  | revokeObjectURL _ => s
  end.

Module Config.
Record t := mk {
  state : State.t;
  log : list Entry;
  nextId : nat;
  (** the suspended handlers *)
  pool : list Susp }.

Definition start (s : State.t) : t := mk s [] 0 [].
Definition act (a : Action) (c : t) : t :=
  mk (perform a (state c)) (log c ++ [did a]) (nextId c) (pool c).
Definition note (e : Entry) (c : t) : t :=
  mk (state c) (log c ++ [e]) (nextId c) (pool c).
Definition issue (op : Op) (c : t) : t :=
  mk (state c) (log c ++ [issued (nextId c) op]) (S (nextId c)) (pool c).
Definition park (ss : list Susp) (c : t) : t :=
  mk (state c) (log c) (nextId c) (pool c ++ ss).
Definition with_pool (ss : list Susp) (c : t) : t :=
  mk (state c) (log c) (nextId c) ss.
End Config.

(** The state of a [Promise.all] over promises [cs]. *)
Inductive Settled := AllFulfilled | OneRejected (e : Exn) | StillPending.

Fixpoint settle (cs : list Susp) : Settled :=
  match cs with
  | [] => AllFulfilled
  | SFailed e :: _ => OneRejected e
  | SDone :: r => settle r
  | _ :: r =>
      match settle r with
      | OneRejected e => OneRejected e
      | _ => StillPending
      end
  end.

Definition is_pending (s : Susp) : bool :=
  match s with
  | SDone | SFailed _ => false
  | _ => true
  end.

(** Start the promises [ps] one after the other, each up to its first
    suspension, as [files.map(async ...)] does. *)
Definition start_all (adv : Async -> Config.t -> Config.t * Susp)
  : list Async -> Config.t -> Config.t * list Susp :=
  fix start ps c :=
    match ps with
    | [] => (c, [])
    | p :: ps' =>
        let '(c1, s) := adv p c in
        let '(c2, ss) := start ps' c1 in
        (c2, s :: ss)
    end.

(** Resume the first of [ss] that [res] accepts, in place. *)
Definition first_some (res : Susp -> option (Config.t * Susp))
  : list Susp -> option (Config.t * list Susp) :=
  fix first ss :=
    match ss with
    | [] => None
    | s :: r =>
        match res s with
        | Some (c', s') => Some (c', s' :: r)
        | None =>
            match first r with
            | Some (c', r') => Some (c', s :: r')
            | None => None
            end
        end
    end.

(** What makes the panel reload the tree: the effect that runs when the
    panel opens, the 15 s interval it sets up, and the two buttons. *)
Inductive Trigger := panel_open | interval_tick | refresh_button | retry_button.

Inductive Event :=
| refresh (t : Trigger)
| click_node (f : FileNode)
| click_download (filePath fileName : string)
| close_viewer
| click_delete (f : FileNode)
| confirm_delete
| cancel_delete
| upload (files : list File.t)
| completes (id : nat) (a : Answer).

(** The handler an event runs, closed over the state of the current
    render. The events are those that run a handler the component defines,
    whether the panel as it is rendered wires it or not. *)
Definition handler (s : State.t) (ev : Event) : Async :=
  match ev with
  | refresh _ => loadWorkspaceTree
  | click_node f => handleFileClick (State.expandedFolders s) f
  | click_download filePath fileName => handleDownload filePath fileName
  | close_viewer => setSelectedFile None ;; Done
  | click_delete f => handleDeleteClick f
  | confirm_delete =>
      handleDeleteConfirm (State.selectedFile s) (State.deleteConfirmation s)
  | cancel_delete => handleDeleteCancel
  | upload files => handleFileUpload files
  | completes _ _ => Done
  end.

Section Browser.

(** How the browser answers the synchronous calls. *)
Variable browser : forall c : SyncCall, Outcome (sret c).

(** What becomes of a [Promise.all] whose promises stand at [cs]: when
    one is rejected the others keep running on their own. *)
Definition join (adv : Async -> Config.t -> Config.t * Susp)
    (cs : list Susp) (k : Outcome unit -> Async) (c : Config.t)
  : Config.t * Susp :=
  match settle cs with
  | AllFulfilled => adv (k (Resolved tt)) c
  | OneRejected e => adv (k (Rejected e)) (Config.park (List.filter is_pending cs) c)
  | StillPending => (c, SAll cs k)
  end.

(** Run [p] up to its first suspension. Where [p] awaits a [Promise.all]
    that is settled when it is awaited, [p] goes on: the await yields, but
    what follows runs in the same turn of the event loop, before any other
    event. *)
Fixpoint advance (p : Async) (c : Config.t) : Config.t * Susp :=
  match p with
  | Done => (c, SDone)
  | Throw e => (c, SFailed e)
  | Act a k => advance k (Config.act a c)
  | Call cl k => advance (k (browser cl)) (Config.note (called cl) c)
  | Await op k => (Config.issue op c, SAwait (Config.nextId c) op k)
  | All ps k =>
      let '(c1, cs) := start_all advance ps c in
      match settle cs with
      | AllFulfilled => advance (k (Resolved tt)) c1
      | OneRejected e =>
          advance (k (Rejected e)) (Config.park (List.filter is_pending cs) c1)
      | StillPending => (c1, SAll cs k)
      end
  end.

(** Deliver answer [a] to the promise [id] inside [s], if it is there. *)
Fixpoint resume (id : nat) (a : Answer) (c : Config.t) (s : Susp)
  : option (Config.t * Susp) :=
  match s with
  | SDone | SFailed _ => None
  | SAwait id' op k =>
      if Nat.eqb id id' then
        match decode op a with
        | Some o => Some (advance (k o) (Config.note (settled id a) c))
        | None => None
        end
      else None
  | SAll cs k =>
      match first_some (resume id a c) cs with
      | Some (c1, cs') => Some (join advance cs' k c1)
      | None => None
      end
  end.

(** Start a handler: what it leaves suspended joins the pool. *)
Definition spawn (p : Async) (c : Config.t) : Config.t :=
  let '(c', s) := advance p c in
  Config.park (List.filter is_pending [s]) c'.

(** Settle promise [id]; an answer nobody waits for changes nothing. *)
Definition deliver (id : nat) (a : Answer) (c : Config.t) : Config.t :=
  match first_some (resume id a (Config.with_pool [] c)) (Config.pool c) with
  | Some (c', ss) => Config.with_pool (List.filter is_pending ss ++ Config.pool c') c'
  | None => c
  end.

Definition step (c : Config.t) (ev : Event) : Config.t :=
  match ev with
  | completes id a => deliver id a c
  | _ => spawn (handler (Config.state c) ev) c
  end.

Definition run (evs : list Event) (c : Config.t) : Config.t :=
  fold_left step evs c.

End Browser.

(** ** Observing a run *)

(** The state cells are a function of the actions performed. *)
Definition replay (es : list Entry) (s : State.t) : State.t :=
  fold_left (fun s e => match e with did a => perform a s | _ => s end) es s.

(** The promises awaited, in the order they were created. *)
Definition promises (es : list Entry) : list Op :=
  flat_map (fun e => match e with issued _ op => [op] | _ => [] end) es.

(** The promises that are requests to the backend: every [fetch], and
    [getWorkspaceTree], which asks the tree endpoint. Reading the body of a
    response that has arrived, and loading the service module, are not. *)
Definition is_network (op : Op) : bool :=
  match op with
  | fetch _ _ _ | getWorkspaceTree => true
  | _ => false
  end.

Definition network_calls (es : list Entry) : list Op :=
  List.filter is_network (promises es).

Definition is_revoke (u : ObjectURL) (e : Entry) : bool :=
  match e with
  | did (revokeObjectURL u') => String.eqb u u'
  | _ => false
  end.

(** How many times [u] was released. *)
Definition revocations (u : ObjectURL) (es : list Entry) : nat :=
  length (List.filter (is_revoke u) es).

(** The object URLs created. *)
Definition materialized (es : list Entry) : list Blob :=
  flat_map (fun e => match e with
                     | called (createObjectURL b) => [b]
                     | _ => []
                     end) es.

Definition notices (es : list Entry) : list string :=
  flat_map (fun e => match e with did (alert m) => [m] | _ => [] end) es.

(** ** Footprints

    [within ok p]: whatever [p] does, now or after any suspension, is
    allowed by [ok]. *)
Section Footprint.

Variable ok : Entry -> Prop.

Fixpoint within (p : Async) : Prop :=
  match p with
  | Done | Throw _ => True
  | Act a k => ok (did a) /\ within k
  | Call c k => ok (called c) /\ forall o, within (k o)
  | Await op k => (forall id, ok (issued id op)) /\ forall o, within (k o)
  | All ps k =>
      (fix all (ps : list Async) : Prop :=
         match ps with
         | [] => True
         | p :: r => within p /\ all r
         end) ps
      /\ forall o, within (k o)
  end.

Fixpoint swithin (s : Susp) : Prop :=
  match s with
  | SDone | SFailed _ => True
  | SAwait _ _ k => forall o, within (k o)
  | SAll cs k =>
      (fix all (cs : list Susp) : Prop :=
         match cs with
         | [] => True
         | s :: r => swithin s /\ all r
         end) cs
      /\ forall o, within (k o)
  end.

(** [c'] comes after [c] by allowed steps only. *)
Definition extends (c c' : Config.t) : Prop :=
  exists es,
    Config.log c' = Config.log c ++ es /\ Forall ok es
    /\ Config.state c' = replay es (Config.state c).

End Footprint.

(** ** Scenarios *)

(** The three ways a reload can go. *)
Inductive RefreshResult :=
| import_rejected (e : Exn)
| tree_rejected (e : Exn)
| tree_listed (data : TreeData).

(** The rest of [loadWorkspaceTree] from each of its two suspension points
    on: after the import of the service, and after the request for the
    tree. *)
Definition loadFailed (err : Exn) : Async :=
  console_error "Error loading workspace:" ;;
  setError (Some "Error loading workspace") ;;
  Done.

Definition afterTree (o : Outcome TreeData) : Async :=
  try_catch
    match o with
    | Resolved data => setFileTree (default [] (tree data)) ;; Done
    | Rejected e => Throw e
    end
    loadFailed.

Definition afterImport (o : Outcome unit) : Async :=
  try_catch
    match o with
    | Resolved _ =>
        let* data := await getWorkspaceTree in
        setFileTree (default [] (tree data)) ;;
        Done
    | Rejected e => Throw e
    end
    loadFailed.

(** Whether the suspended handler [s] waits for promise [id]. *)
Fixpoint waits_for (id : nat) (s : Susp) : bool :=
  match s with
  | SDone | SFailed _ => false
  | SAwait id' _ _ => Nat.eqb id id'
  | SAll cs _ => existsb (waits_for id) cs
  end.

(** The completions of a reload whose first promise is [id]. *)
Definition refresh_completions (id : nat) (r : RefreshResult) : list Event :=
  match r with
  | import_rejected e => [completes id (rejects e)]
  | tree_rejected e => [completes id loads; completes (S id) (rejects e)]
  | tree_listed data => [completes id loads; completes (S id) (lists data)]
  end.

(** A run in which nothing but reloads happens: triggers and completions
    in any order. *)
Definition refresh_event (ev : Trigger + nat * Answer) : Event :=
  match ev with
  | inl t => refresh t
  | inr (id, a) => completes id a
  end.

(** What a reload may do: set the error and the tree, log to the console,
    and await its two promises. *)
Definition refresh_footprint (e : Entry) : Prop :=
  match e with
  | did (setError _) | did (setFileTree _) | did (console_error _) => True
  | issued _ import_workspaceService | issued _ getWorkspaceTree => True
  | settled _ _ => True
  | _ => False
  end.

(** The allow-list in the words of the interface description, with
    nothing taken from the source: the previewable extensions, the letters
    with their capitals, and a comparison that takes no account of the case
    of a letter. *)
Definition previewableExtensions : list string :=
  [".txt"; ".md"; ".json"; ".yaml"; ".yml"; ".log"; ".csv"; ".html"; ".css";
   ".js"; ".ts"; ".py"].

Definition capitals : list (ascii * ascii) :=
  combine (list_ascii_of_string "abcdefghijklmnopqrstuvwxyz")
          (list_ascii_of_string "ABCDEFGHIJKLMNOPQRSTUVWXYZ").

(** The same character, or a letter and its capital. *)
Definition same_letter (c d : ascii) : Prop :=
  c = d \/ In (c, d) capitals \/ In (d, c) capitals.

(** The same text but for the case of its letters. *)
Inductive caseless : string -> string -> Prop :=
| caseless_empty : caseless "" ""
| caseless_next c d r t :
    same_letter c d -> caseless r t -> caseless (String c r) (String d t).

(** [U+D800], the first of the surrogates, standing on its own. *)
Definition unpaired : string := String "237" (String "160" (String "128" "")).

(** The name ends, case-insensitively, with one of the previewable
    extensions. *)
Definition previewable_suffix (fileName : string) : Prop :=
  exists stem suffix ext,
    fileName = stem +:+ suffix /\ In ext previewableExtensions
    /\ caseless suffix ext.

(** Completions only: the answers [(id, a)] in the order they arrive. *)
Definition completions (answers : list (nat * Answer)) : list Event :=
  map (fun '(id, a) => completes id a) answers.

(** Nothing is asked of the backend. *)
Definition no_request (e : Entry) : Prop :=
  match e with
  | issued _ op => is_network op = false
  | _ => True
  end.

(** What a preview of [f] commits when its content is [c]. *)
Definition preview_of (f : FileNode) (c : string) : Selected.t :=
  Selected.mk (path f) c (name f).

(** Preview [A], then preview [B] before [A]'s request resolves; [B]
    resolves, then [A]. In a fresh run [A]'s request is promise 0, [B]'s
    is promise 1, and the two bodies are promises 2 and 3 in the order they
    are read. *)
Definition overtaken_preview (A B : FileNode) (rA rB : Response)
    (contentA contentB : string) : list Event :=
  [click_node A; click_node B;
   completes 1 (responds rB); completes 2 (parses {| content := contentB |});
   completes 0 (responds rA); completes 3 (parses {| content := contentA |})].

(** A browser in which nothing throws: the URL of a blob is made of its
    bytes. *)
Definition quiet_browser (c : SyncCall) : Outcome (sret c) :=
  match c with
  | createObjectURL (mkBlob data) => Resolved ("blob:" +:+ data)
  | click _ => Resolved tt
  end.

(** A browser in which the click on the anchor throws. *)
Definition throwing_click_browser (c : SyncCall) : Outcome (sret c) :=
  match c with
  | createObjectURL (mkBlob data) => Resolved ("blob:" +:+ data)
  | click _ => Rejected (Error "click failed")
  end.

(** The ways a download can go up to the blob. *)
Inductive DownloadResult :=
| download_rejected (e : Exn)
| download_refused (statusText : string)
| blob_rejected (statusText : string) (e : Exn)
| blob_read (statusText : string) (b : Blob).

Definition download_completions (r : DownloadResult) : list Event :=
  match r with
  | download_rejected e => [completes 0 (rejects e)]
  | download_refused st => [completes 0 (responds (Build_Response false st))]
  | blob_rejected st e =>
      [completes 0 (responds (Build_Response true st)); completes 1 (rejects e)]
  | blob_read st b =>
      [completes 0 (responds (Build_Response true st)); completes 1 (reads b)]
  end.

(** The ways a confirmed delete can go. *)
Inductive DeleteResult :=
| delete_rejected (e : Exn)
| delete_refused (statusText : string)
| deleted (statusText : string) (r : RefreshResult).

Definition delete_completions (r : DeleteResult) : list Event :=
  match r with
  | delete_rejected e => [completes 0 (rejects e)]
  | delete_refused st => [completes 0 (responds (Build_Response false st))]
  | deleted st r =>
      completes 0 (responds (Build_Response true st)) :: refresh_completions 1 r
  end.

(** The rest of [handleDeleteConfirm] from each of its three suspension
    points on: after the [DELETE] request, and inside [loadWorkspaceTree]
    after the import and after the request for the tree. [selectedFile] is
    the cell as the render of the click had it, [f] the file staged. *)
Section DeleteContinuations.

Variable selectedFile : option Selected.t.
Variable f : FileNode.







End DeleteContinuations.


(** The tree after a reload that went as [r]. *)
Definition reloaded (r : RefreshResult) (before : list FileNode) : list FileNode :=
  match r with
  | tree_listed data => default [] (tree data)
  | _ => before
  end.

(** ** Observing an upload *)

Definition upload_request (f : File.t) : Op :=
  fetch "/api/workspace/upload" POST (Some f).

Definition is_fetch (op : Op) : bool :=
  match op with
  | fetch _ _ _ => true
  | _ => false
  end.

(** Every [fetch] of the run, in order. *)
Definition fetches (es : list Entry) : list Op :=
  List.filter is_fetch (promises es).

(** A reload starts by importing the service. *)
Definition is_refresh_start (e : Entry) : bool :=
  match e with
  | issued _ import_workspaceService => true
  | _ => false
  end.

Definition refreshes (es : list Entry) : nat :=
  length (List.filter is_refresh_start es).

(** The log up to the first reload. *)
Fixpoint before_refresh (es : list Entry) : list Entry :=
  match es with
  | [] => []
  | e :: r => if is_refresh_start e then [] else e :: before_refresh r
  end.

(** An answer that makes the awaiting upload throw: a rejection, or a
    response that is not ok. *)
Definition failing (a : Answer) : bool :=
  match a with
  | rejects _ => true
  | responds r => negb (ok r)
  | _ => false
  end.

Definition is_failed (e : Entry) : bool :=
  match e with
  | settled _ a => failing a
  | _ => false
  end.

Definition failed (es : list Entry) : nat :=
  length (List.filter is_failed es).

Definition is_fulfilled (e : Entry) : bool :=
  match e with
  | settled _ (parses _) => true
  | _ => false
  end.

(** The uploads that ran to their end: the body of the response was read. *)
Definition fulfilled (es : list Entry) : nat :=
  length (List.filter is_fulfilled es).

Definition is_upload_failure (e : Entry) : bool :=
  match e with
  | did (setError (Some m)) => String.prefix "Upload failed: " m
  | _ => false
  end.

(** How many times the upload reported a failure. *)
Definition aggregate_failures (es : list Entry) : nat :=
  length (List.filter is_upload_failure es).

(** The first synchronous stretch of an upload of [files], in a fresh run:
    the two setters, then one request per file. *)
Fixpoint upload_requests (id : nat) (files : list File.t) : list Entry :=
  match files with
  | [] => []
  | f :: r => issued id (upload_request f) :: upload_requests (S id) r
  end.

(** The continuations of [uploadOne]: after the response, after the body. *)
Definition afterUploadResponse (f : File.t) (o : Outcome Response) : Async :=
  match o with
  | Resolved response =>
      if negb (ok response) then
        Throw (Error ("Failed to upload " +:+ File.name f +:+ ": "
                      +:+ statusText response))
      else
        let* _ := await response_json in
        Done
  | Rejected e => Throw e
  end.

Definition afterUploadBody (o : Outcome Json) : Async :=
  match o with
  | Resolved _ => Done
  | Rejected e => Throw e
  end.

(** Where one upload stands while none has failed. *)
Inductive uploading : Susp -> Prop :=
| awaits_response id f :
    uploading (SAwait id (upload_request f) (afterUploadResponse f))
| awaits_body id : uploading (SAwait id response_json afterUploadBody)
| uploaded : uploading SDone.

(** What [handleFileUpload] does once [Promise.all] has settled. *)
Definition afterUploads (o : Outcome unit) : Async :=
  try_finally
    (try_catch
       (match o with
        | Resolved _ => seq loadWorkspaceTree Done
        | Rejected e => Throw e
        end)
       (fun err =>
        console_error "Error uploading files:" ;;
        setError (Some ("Upload failed: "
                        +:+ match err with
                            | Error message => message
                            | Thrown => "Unknown error"
                            end)) ;;
        Done))
    (setLoading false ;;
     Done).

(** What the uploads left running after a failure may still do: settle,
    and read the body of a response. *)
Definition orphan_footprint (e : Entry) : Prop :=
  match e with
  | settled _ _ | issued _ response_json => True
  | _ => False
  end.

(** What the reload at the end of an upload may do once it has started. *)
Definition reload_tail_footprint (e : Entry) : Prop :=
  match e with
  | settled _ _ | issued _ getWorkspaceTree => True
  | did (setFileTree _) | did (console_error _) | did (setLoading _) => True
  | did (setError v) => v = None \/ v = Some "Error loading workspace"
  | _ => False
  end.

(** What the uploads do while none has failed: settle without failing,
    and read a body. *)
Definition calm (e : Entry) : Prop :=
  match e with
  | settled _ a => failing a = false
  | issued _ response_json => True
  | _ => False
  end.

(** How many of the uploads [cs] have run to their end. *)
Definition done_count (cs : list Susp) : nat :=
  length (List.filter (fun s => negb (is_pending s)) cs).

(** The three phases of an upload of [files], told by what is suspended in
    [c] and by [es], the log since the requests were issued. *)
Definition phase_uploading (files : list File.t) (c : Config.t)
    (es : list Entry) : Prop :=
  exists cs,
    Config.pool c = [SAll cs afterUploads]
    /\ Forall uploading cs /\ length cs = length files
    /\ done_count cs < length cs /\ done_count cs = fulfilled es
    /\ Forall calm es.

Definition phase_failed (c : Config.t) (es : list Entry) : Prop :=
  exists pre id a m post,
    es = pre ++ [settled id a; did (console_error "Error uploading files:");
                 did (setError (Some ("Upload failed: " +:+ m)));
                 did (setLoading false)] ++ post
    /\ Forall calm pre /\ failing a = true
    /\ Forall orphan_footprint post
    /\ Forall (swithin orphan_footprint) (Config.pool c).

Definition phase_reloading (files : list File.t) (c : Config.t)
    (es : list Entry) : Prop :=
  exists pre id post,
    es = pre ++ [did (setError None); issued id import_workspaceService] ++ post
    /\ Forall calm pre /\ fulfilled pre = length files
    /\ Forall reload_tail_footprint post
    /\ Forall (swithin reload_tail_footprint) (Config.pool c).

Definition upload_phase (files : list File.t) (c : Config.t) : Prop :=
  exists es,
    Config.log c
    = [did (setLoading true); did (setError None)] ++ upload_requests 0 files
      ++ es
    /\ (phase_uploading files c es \/ phase_failed c es
        \/ phase_reloading files c es).

(** Not a [fetch]. *)
Definition no_fetch (e : Entry) : Prop :=
  match e with
  | issued _ op => is_fetch op = false
  | _ => True
  end.

(** ** The request throttle *)

Module Throttle.

(** Modelled from the spec: the sources of a call to the workspace API
    that the throttle, [workspaceThrottle], sees. The module is imported by
    the application for its effect and is not among the sources here; the
    panel itself calls the backend on every trigger. *)
Inductive Source := from_trigger (t : Trigger) | post_operation.

(** Modelled from the spec: what the throttle of [workspaceThrottle] does
    with a call that arrives inside the minimum spacing. The description
    says that bursts are collapsed into the allowed rate and leaves open
    whether such a call is given up or held back; both are modelled. *)
Inductive Policy := drop | defer.

(** Modelled from the spec: the gate of [workspaceThrottle], a single one
    for all call sites. [last] is the time the last request was issued, if
    any; a call at time [now] is issued at once when the minimum spacing
    has passed, and is otherwise dropped, or deferred to the end of the
    spacing. Times are in milliseconds. *)
Definition gate (policy : Policy) (minInterval : Z) (last : option Z) (now : Z)
  : option Z :=
  match last with
  | None => Some now
  | Some t0 =>
      if (t0 + minInterval <=? now)%Z then Some now
      else match policy with
           | drop => None
           | defer => Some (t0 + minInterval)%Z
           end
  end.

(** Modelled from the spec: the times at which the calls [calls], each
    with its time and its source, are issued to the network by the gate of
    [workspaceThrottle]. *)
Fixpoint issue_times (policy : Policy) (minInterval : Z) (last : option Z)
    (calls : list (Z * Source)) : list Z :=
  match calls with
  | [] => []
  | (now, _) :: rest =>
      match gate policy minInterval last now with
      | Some t => t :: issue_times policy minInterval (Some t) rest
      | None => issue_times policy minInterval last rest
      end
  end.

(** Modelled from the spec: the throttle window of length [minInterval]
    that opens at [w]. *)
Definition in_window (minInterval w t : Z) : bool :=
  ((w <=? t) && (t <? w + minInterval))%Z.

(** Modelled from the spec: the spacing [workspaceThrottle] keeps: each
    request is issued at least [minInterval] after the one before. *)
Fixpoint spaced (minInterval : Z) (last : option Z) (ts : list Z) : Prop :=
  match ts with
  | [] => True
  | t :: rest =>
      match last with
      | Some t0 => (t0 + minInterval <= t)%Z
      | None => True
      end
      /\ spaced minInterval (Some t) rest
  end.

(** Modelled from the spec: the three seconds the application asks of
    [workspaceThrottle]. *)
Definition minimumInterval : Z := 3000.

End Throttle.

(** ** Induction principles

    [FileNode], [Async] and [Susp] are nested through lists; these are the
    induction principles that reach the elements. *)

Section FileNodeInduction.

Variable P : FileNode -> Prop.
Hypothesis HNode :
  forall nm p ty ch,
    (forall nodes, ch = Some nodes -> Forall P nodes) ->
    P (mkFileNode nm p ty ch).

Fixpoint FileNode_nested_ind (n : FileNode) : P n :=
  match n with
  | mkFileNode nm p ty ch =>
      HNode nm p ty ch
        (match ch return forall nodes, ch = Some nodes -> Forall P nodes with
         | Some l =>
             fun nodes E =>
               match E in _ = o
                     return match o with
                            | Some m => Forall P m
                            | None => True
                            end
               with
               | eq_refl =>
                   (fix all (l : list FileNode) : Forall P l :=
                      match l with
                      | [] => List.Forall_nil P
                      | x :: r =>
                          @List.Forall_cons _ P x r
                            (FileNode_nested_ind x) (all r)
                      end) l
               end
         | None => fun nodes E => match E with end
         end)
  end.

End FileNodeInduction.

Section AsyncInduction.

Variable P : Async -> Prop.
Hypothesis HDone : P Done.
Hypothesis HThrow : forall e, P (Throw e).
Hypothesis HAct : forall a k, P k -> P (Act a k).
Hypothesis HCall : forall c k, (forall o, P (k o)) -> P (Call c k).
Hypothesis HAwait : forall op k, (forall o, P (k o)) -> P (Await op k).
Hypothesis HAll :
  forall ps k, Forall P ps -> (forall o, P (k o)) -> P (All ps k).

Fixpoint Async_nested_ind (p : Async) : P p :=
  match p with
  | Done => HDone
  | Throw e => HThrow e
  | Act a k => HAct a k (Async_nested_ind k)
  | Call c k => HCall c k (fun o => Async_nested_ind (k o))
  | Await op k => HAwait op k (fun o => Async_nested_ind (k o))
  | All ps k =>
      HAll ps k
        ((fix all (ps : list Async) : Forall P ps :=
            match ps with
            | [] => List.Forall_nil P
            | p :: r => @List.Forall_cons _ P p r (Async_nested_ind p) (all r)
            end) ps)
        (fun o => Async_nested_ind (k o))
  end.

End AsyncInduction.

Section SuspInduction.

Variable P : Susp -> Prop.
Hypothesis HDone : P SDone.
Hypothesis HFailed : forall e, P (SFailed e).
Hypothesis HAwait : forall id op k, P (SAwait id op k).
Hypothesis HAll : forall cs k, Forall P cs -> P (SAll cs k).

Fixpoint Susp_nested_ind (s : Susp) : P s :=
  match s with
  | SDone => HDone
  | SFailed e => HFailed e
  | SAwait id op k => HAwait id op k
  | SAll cs k =>
      HAll cs k
        ((fix all (cs : list Susp) : Forall P cs :=
            match cs with
            | [] => List.Forall_nil P
            | s :: r => @List.Forall_cons _ P s r (Susp_nested_ind s) (all r)
            end) cs)
  end.

End SuspInduction.


(** * The rest of the panel *)

(** ** What the panel shows *)

(** The body of [workspace-panel-content]: the error with its retry
    button, the empty workspace, or the tree. *)
Inductive PanelContent :=
| workspace_error (message : string)
| workspace_empty
| file_tree (rows : list Row).

(** [error ? ... : fileTree.length === 0 ? ... : renderFileTree(fileTree)];
    the empty string is falsy. *)
Definition panelContent (s : State.t) (highlightedFile : option string)
  : PanelContent :=
  match State.error s with
  | Some (String c m) => workspace_error (String c m)
  | _ =>
      if Nat.eqb (length (State.fileTree s)) 0 then workspace_empty
      else file_tree (renderFileTree (State.expandedFolders s) highlightedFile
                        (State.fileTree s) 0)
  end.

(** [{selectedFile && ...}]: the file viewer, with the name and the
    content it shows. *)
Definition fileViewer (s : State.t) : option (string * string) :=
  match State.selectedFile s with
  | Some sel => Some (Selected.name sel, Selected.content sel)
  | None => None
  end.

(** The keys of the rows on the screen, from top to bottom. *)
Fixpoint shown (r : Row) : list string :=
  match r with
  | mkRow key _ _ _ _ _ nested =>
      key :: match nested with
             | Some rows => flat_map shown rows
             | None => []
             end
  end.

(** ** Drag and drop *)

(** What a handler did to the event it was given. *)
Record DragEvent := { defaultPrevented : bool; propagationStopped : bool }.

Definition preventDefault (e : DragEvent) : DragEvent :=
  {| defaultPrevented := true; propagationStopped := propagationStopped e |}.
Definition stopPropagation (e : DragEvent) : DragEvent :=
  {| defaultPrevented := defaultPrevented e; propagationStopped := true |}.

(** The four drag handlers: the event is consumed and, with the upload
    disabled in the source, nothing else is done. *)
Definition handleDragEnter (e : DragEvent) : DragEvent * Async :=
  (stopPropagation (preventDefault e), Done).
Definition handleDragLeave (e : DragEvent) : DragEvent * Async :=
  (stopPropagation (preventDefault e), Done).
Definition handleDragOver (e : DragEvent) : DragEvent * Async :=
  (stopPropagation (preventDefault e), Done).
Definition handleDrop (e : DragEvent) : DragEvent * Async :=
  (stopPropagation (preventDefault e), Done).

(** ** What the rendered panel can be made to do

    The events the JSX wires to a handler. The delete button, the delete
    dialog and the drop overlay are commented out in the source, so neither
    [handleDeleteClick], [handleDeleteConfirm], [handleDeleteCancel] nor
    [handleFileUpload] is among them; the download button is on the rows of
    files and in the viewer. *)
Inductive Gesture :=
| reloads (t : Trigger)
| clicks_item (f : FileNode)
| clicks_download (f : FileNode)
| clicks_viewer_download
| closes_viewer
| drag_enters (e : DragEvent)
| drag_leaves (e : DragEvent)
| drags_over (e : DragEvent)
| drops (e : DragEvent)
| completion (id : nat) (a : Answer).

Definition gesture_handler (s : State.t) (g : Gesture) : Async :=
  match g with
  | reloads _ => loadWorkspaceTree
  | clicks_item f => handleFileClick (State.expandedFolders s) f
  | clicks_download f =>
      match type f with
      | file => handleDownload (path f) (name f)
      | directory => Done
      end
  | clicks_viewer_download =>
      match State.selectedFile s with
      | Some sel => handleDownload (Selected.path sel) (Selected.name sel)
      | None => Done
      end
  | closes_viewer => setSelectedFile None ;; Done
  | drag_enters e => snd (handleDragEnter e)
  | drag_leaves e => snd (handleDragLeave e)
  | drags_over e => snd (handleDragOver e)
  | drops e => snd (handleDrop e)
  | completion _ _ => Done
  end.

Definition gesture_step (browser : forall c : SyncCall, Outcome (sret c))
    (c : Config.t) (g : Gesture) : Config.t :=
  match g with
  | completion id a => deliver browser id a c
  | _ => spawn browser (gesture_handler (Config.state c) g) c
  end.

Definition gesture_run (browser : forall c : SyncCall, Outcome (sret c))
    (gs : list Gesture) (c : Config.t) : Config.t :=
  fold_left (gesture_step browser) gs c.

(** What the wired handlers may do: everything but touch the staged
    delete and the drag flag, and no request other than a [GET] without a
    body. *)
Definition wired_footprint (e : Entry) : Prop :=
  match e with
  | did (setDeleteConfirmation _) | did (setIsDragOver _) => False
  | issued _ (fetch _ m body) => m = GET /\ body = None
  | _ => True
  end.

(** ** Scenarios of a preview *)

(** The ways a preview can go once it has passed the gate. *)
Inductive PreviewResult :=
| preview_rejected (e : Exn)
| preview_refused (statusText : string)
| body_rejected (statusText : string) (e : Exn)
| body_read (statusText : string) (content : string).

(** The completions of a preview whose request is promise [id] and whose
    body, if it comes to be read, is promise [body]. *)
Definition preview_completions (id body : nat) (r : PreviewResult) : list Event :=
  match r with
  | preview_rejected e => [completes id (rejects e)]
  | preview_refused st => [completes id (responds (Build_Response false st))]
  | body_rejected st e =>
      [completes id (responds (Build_Response true st));
       completes body (rejects e)]
  | body_read st c =>
      [completes id (responds (Build_Response true st));
       completes body (parses {| content := c |})]
  end.

(** The selection after a preview of [f] that went as [r]. *)
Definition previewed (f : FileNode) (r : PreviewResult)
    (before : option Selected.t) : option Selected.t :=
  match r with
  | body_read _ c => Some (preview_of f c)
  | _ => before
  end.

(** The notice a preview that went as [r] shows. *)
Definition preview_notice (r : PreviewResult) : list string :=
  match r with
  | body_read _ _ => []
  | preview_refused _ => ["Failed to load file"]
  | _ => ["Error loading file"]
  end.

(** A request that changes nothing on the backend: no [fetch] but a [GET]
    without a body. *)
Definition read_only (op : Op) : Prop :=
  match op with
  | fetch _ m body => m = GET /\ body = None
  | _ => True
  end.

(** What the panel shows for a state with no error. *)
Definition tree_or_empty (x : gset string) (highlightedFile : option string)
    (nodes : list FileNode) : PanelContent :=
  match nodes with
  | [] => workspace_empty
  | _ :: _ => file_tree (renderFileTree x highlightedFile nodes 0)
  end.

(** ** Scenarios of an upload of one file *)

Inductive UploadResult :=
| upload_rejected (e : Exn)
| upload_refused (statusText : string)
| ack_rejected (statusText : string) (e : Exn)
| acknowledged (statusText : string) (ack : Json) (r : RefreshResult).

(** The completions of an upload of one file in a fresh run: the request
    is promise 0, the body promise 1, and the reload starts at promise 2. *)
Definition upload_completions (r : UploadResult) : list Event :=
  match r with
  | upload_rejected e => [completes 0 (rejects e)]
  | upload_refused st => [completes 0 (responds (Build_Response false st))]
  | ack_rejected st e =>
      [completes 0 (responds (Build_Response true st)); completes 1 (rejects e)]
  | acknowledged st ack r =>
      completes 0 (responds (Build_Response true st))
      :: completes 1 (parses ack) :: refresh_completions 2 r
  end.

(** What the [catch] of the upload reads off the thrown value:
    [err instanceof Error ? err.message : 'Unknown error']. *)
Definition thrown_message (e : Exn) : string :=
  match e with
  | Error message => message
  | Thrown => "Unknown error"
  end.

(** * The tools configuration ([ToolsConfig])

    The editing functions of the MCP servers tab. Each reads [configData]
    as its render has it and hands a new object to [setConfigData]; here
    each is the function from the one to the other. Objects used as
    dictionaries are finite maps. *)

Module ToolsConfig.

Module Service.
Record t := mk { url : string; description : string }.
End Service.

Module App.
Record t := mk { name : string; description : string; url : string;
                 type : string }.
End App.

Module Tool.
Record t := mk { name : string; description : string }.
End Tool.

(** [interface McpServer]: every field is optional. *)
Record McpServer := mkServer {
  command : option string;
  args : option (list string);
  url : option string;
  transport : option string;
  description : option string;
  env : option (gmap string string) }.

(** [interface ToolsConfigData]: every field is optional. *)
Record ToolsConfigData := mkConfig {
  services : option (list (gmap string Service.t));
  mcpServers : option (gmap string McpServer);
  apps : option (list App.t);
  appTools : option (gmap string (list Tool.t)) }.

(** [{ ...configData, mcpServers: servers }] *)
Definition with_mcpServers (configData : ToolsConfigData)
    (servers : gmap string McpServer) : ToolsConfigData :=
  mkConfig (services configData) (Some servers) (apps configData)
           (appTools configData).

(** [configData.mcpServers?.[serverName]], as far as the configuration's
    own entries go: what the lookup finds on [Object.prototype] has none
    of a server's fields and spreads to nothing. *)
Definition server (configData : ToolsConfigData) (serverName : string)
  : option McpServer :=
  default ∅ (mcpServers configData) !! serverName.

(** A field of a server with the value it is given, as the six call sites
    of [updateMcpServer] pass them. *)
Inductive FieldValue :=
| command_is (value : string)
| args_are (value : list string)
| url_is (value : string)
| transport_is (value : string)
| description_is (value : string)
| env_is (value : gmap string string).

(** [{}], what spreading [undefined] leaves. *)
Definition blank : McpServer := mkServer None None None None None None.

(** [{ ...server, [field]: value }] *)
Definition with_field (fv : FieldValue) (s : McpServer) : McpServer :=
  match fv with
  | command_is v =>
      mkServer (Some v) (args s) (url s) (transport s) (description s) (env s)
  | args_are v =>
      mkServer (command s) (Some v) (url s) (transport s) (description s) (env s)
  | url_is v =>
      mkServer (command s) (args s) (Some v) (transport s) (description s) (env s)
  | transport_is v =>
      mkServer (command s) (args s) (url s) (Some v) (description s) (env s)
  | description_is v =>
      mkServer (command s) (args s) (url s) (transport s) (Some v) (env s)
  | env_is v =>
      mkServer (command s) (args s) (url s) (transport s) (description s) (Some v)
  end.

(** The server [addMcpServer] creates. *)
Definition newServer : McpServer :=
  mkServer (Some "uv") (Some []) None (Some "stdio") (Some "") (Some ∅).

(** The properties every object has from [Object.prototype]: a lookup
    by one of these names finds the inherited property when the object has
    none of its own. *)
Definition objectPrototype : list string :=
  ["constructor"; "hasOwnProperty"; "isPrototypeOf"; "propertyIsEnumerable";
   "toLocaleString"; "toString"; "valueOf"; "__proto__"; "__defineGetter__";
   "__defineSetter__"; "__lookupGetter__"; "__lookupSetter__"].

Definition inherited (key : string) : bool :=
  existsb (String.eqb key) objectPrototype.

(** [addMcpServer], with the answer to its [prompt]: [None] when the
    dialog is cancelled. The test [!configData.mcpServers?.[serverName]]
    fails on a server of that name and on an inherited property alike. *)
Definition addMcpServer (answer : option string)
    (configData : ToolsConfigData) : ToolsConfigData :=
  match answer with
  | Some (String c n as serverName) =>
      match server configData serverName with
      | None =>
          if inherited serverName && bool_decide (is_Some (mcpServers configData))
          then configData
          else
            with_mcpServers configData
              (<[serverName := newServer]> (default ∅ (mcpServers configData)))
      | Some _ => configData
      end
  | _ => configData
  end.

(** Whether [addMcpServer] accepts a name for a server that is not there:
    it is not empty, and is not found on [Object.prototype] when there is
    an object of servers to look into. *)
Definition accepted (configData : ToolsConfigData) (n : string) : Prop :=
  n <> "" /\ (inherited n = true -> mcpServers configData = None).

#[export] Instance accepted_dec configData n : Decision (accepted configData n).
Proof. unfold accepted. apply _. Defined.

Definition removeMcpServer (serverName : string)
    (configData : ToolsConfigData) : ToolsConfigData :=
  let rest := delete serverName (default ∅ (mcpServers configData)) in
  with_mcpServers configData rest.

Definition updateMcpServer (serverName : string) (fv : FieldValue)
    (configData : ToolsConfigData) : ToolsConfigData :=
  with_mcpServers configData
    (<[serverName := with_field fv (default blank (server configData serverName))]>
       (default ∅ (mcpServers configData))).

(** [currentServer?.args || []] *)
Definition currentArgs (configData : ToolsConfigData) (serverName : string)
  : list string :=
  default [] (server configData serverName ≫= args).

(** [currentServer?.env || {}] *)
Definition currentEnv (configData : ToolsConfigData) (serverName : string)
  : gmap string string :=
  default ∅ (server configData serverName ≫= env).

Definition addArg (serverName : string) (configData : ToolsConfigData)
  : ToolsConfigData :=
  let newArgs := currentArgs configData serverName ++ [""] in
  updateMcpServer serverName (args_are newArgs) configData.

(** [array.filter((x, i) => keep x i)], from index [i] on. *)
Fixpoint filter_indexed {A} (keep : A -> nat -> bool) (i : nat) (l : list A)
  : list A :=
  match l with
  | [] => []
  | x :: r =>
      if keep x i then x :: filter_indexed keep (S i) r
      else filter_indexed keep (S i) r
  end.

Definition removeArg (serverName : string) (index : nat)
    (configData : ToolsConfigData) : ToolsConfigData :=
  let newArgs :=
    filter_indexed (fun _ i => negb (Nat.eqb i index)) 0
      (currentArgs configData serverName) in
  updateMcpServer serverName (args_are newArgs) configData.

(** [addEnvVar], with the answer to its [prompt]. *)
Definition addEnvVar (answer : option string) (serverName : string)
    (configData : ToolsConfigData) : ToolsConfigData :=
  match answer with
  | Some (String c k as key) =>
      updateMcpServer serverName
        (env_is (<[key := ""]> (currentEnv configData serverName))) configData
  | _ => configData
  end.

Definition updateEnvVar (serverName key value : string)
    (configData : ToolsConfigData) : ToolsConfigData :=
  updateMcpServer serverName
    (env_is (<[key := value]> (currentEnv configData serverName))) configData.

Definition removeEnvVar (serverName key : string)
    (configData : ToolsConfigData) : ToolsConfigData :=
  let rest := delete key (currentEnv configData serverName) in
  updateMcpServer serverName (env_is rest) configData.


End ToolsConfig.

(** * The left sidebar ([LeftSidebar]) *)

From stdpp Require pretty.

Module LeftSidebar.

(** The furthest a date can be from the epoch, in milliseconds. *)
Definition maxTime : Z := 8640000000000000.

(** The time value of [new Date(timestamp)], [None] when the date is
    invalid: a date can be no further than [maxTime] from the epoch. A
    timestamp is a whole number of milliseconds, as [Date.now()] gives
    it. *)
Definition timeValue (timestamp : Z) : option Z :=
  if (Z.abs timestamp <=? maxTime)%Z then Some timestamp else None.

(** [formatDate]. [now] is the clock, read by [new Date()], a valid date,
    and [toLocaleDateString] is the browser's rendering of a valid date;
    both are in the hands of the environment. On an invalid date [getTime()]
    is [NaN], every comparison fails and [toLocaleDateString()] gives
    ["Invalid Date"]. The source computes the quotients in floating point
    and floors them; between two valid dates they are the integer quotients
    taken here wherever a comparison or the label depends on them, that is
    for ages of less than a week. *)
Definition formatDate (toLocaleDateString : Z -> string) (now timestamp : Z)
  : string :=
  match timeValue timestamp with
  | None => "Invalid Date"
  | Some date =>
      let diff := (now - date)%Z in
      let minutes := (diff / (1000 * 60))%Z in
      let hours := (diff / (1000 * 60 * 60))%Z in
      let days := (diff / (1000 * 60 * 60 * 24))%Z in
      if (minutes <? 1)%Z then "1 minute ago"
      else if (minutes <? 60)%Z then
        pretty.pretty minutes +:+ " "
        +:+ (if (minutes =? 1)%Z then "minute" else "minutes") +:+ " ago"
      else if (hours <? 24)%Z then
        pretty.pretty hours +:+ " "
        +:+ (if (hours =? 1)%Z then "hour" else "hours") +:+ " ago"
      else if (days =? 1)%Z then "now"
      else if (days <? 7)%Z then pretty.pretty days +:+ " days ago"
      else toLocaleDateString date
  end.

(** [interface Conversation] *)
Record Conversation := mkConversation {
  id : string;
  title : string;
  timestamp : Z;
  preview : option string }.

(** [customTitle || "New Conversation"] *)
Definition titleOrDefault (customTitle : option string) : string :=
  match customTitle with
  | Some (String c r) => String c r
  | _ => "New Conversation"
  end.

(** [newConv] of [createNewConversation]; the clock is read once for the
    id and once for the timestamp. *)
Definition newConversation (idClock stampClock : Z)
    (customTitle : option string) : Conversation :=
  mkConversation ("conv-" +:+ pretty.pretty idClock) (titleOrDefault customTitle)
                 stampClock None.


(** The first update of [createNewConversation]:
    [prevConversations => [newConv, ...prevConversations]]. *)
Definition added (newConv : Conversation) (prevConversations : list Conversation)
  : list Conversation :=
  newConv :: prevConversations.


(** [conversations.filter(c => c.id !== id)] *)
Definition deleted (id0 : string) (conversations : list Conversation)
  : list Conversation :=
  List.filter (fun c => negb (String.eqb (id c) id0)) conversations.

(** The two cells of the sidebar that the conversation handlers write. *)
Record Sidebar := mkSidebar {
  conversations : list Conversation;
  selectedConversation : option string }.

(** [createNewConversation] up to its [await]: the conversation is added
    and selected. *)
Definition created (newConv : Conversation) (s : Sidebar) : Sidebar :=
  mkSidebar (added newConv (conversations s)) (Some (id newConv)).

(** [deleteConversation] from its [await] on. [render] is the state of the
    render whose button was clicked: the handler reads [conversations] and
    [selectedConversation] from its closure, not from the state there is
    when the answer comes. A request that was rejected is caught and, like
    one that was refused, changes nothing. *)
Definition deleteConversation (render : Sidebar) (id0 : string) (ok : bool)
    (s : Sidebar) : Sidebar :=
  if ok then
    mkSidebar (deleted id0 (conversations render))
              (if decide (selectedConversation render = Some id0) then None
               else selectedConversation s)
  else s.

End LeftSidebar.

(** * The application shell ([App]) *)

Module AppLayout.

(** The title [handleMessageSent] gives a conversation:
    [message.length > 50 ? message.substring(0, 50) + "..." : message].
    A JavaScript string is a sequence of UTF-16 code units, and length and
    [substring] count units; [dot] is the unit of a full stop. *)
Definition messageTitle {unit16 : Type} (dot : unit16) (message : list unit16)
  : list unit16 :=
  if Nat.ltb 50 (length message) then take 50 message ++ [dot; dot; dot]
  else message.

(** ** Polling

    The effect of [WorkspacePanel] that reloads the tree and sets up the
    interval, under the shell that mounts the panel and opens and closes
    it. React runs the effect after the first render and after each render
    that changed [isOpen], the clean-up of the effect before it on each
    re-run and on unmount; an interval that was cleared does not fire. *)

(** What one run of the effect leaves: the value of [isOpen] it saw and
    the interval its clean-up clears, if it returned one. *)
Record Effect := { seen : bool; interval : option nat }.

Record Host := mkHost {
  workspacePanelOpen : bool;
  hasStartedChat : bool;
  (** the effect of the mounted panel *)
  mounted : option Effect;
  (** the intervals set and not cleared *)
  live : list nat;
  nextInterval : nat;
  (** the calls of [loadWorkspaceTree], oldest first *)
  calls : list Trigger }.

(** [return () => clearInterval(interval)] *)
Definition cleanup (e : Effect) (h : Host) : Host :=
  match interval e with
  | Some i =>
      mkHost (workspacePanelOpen h) (hasStartedChat h) (mounted h)
             (List.filter (fun j => negb (Nat.eqb j i)) (live h))
             (nextInterval h) (calls h)
  | None => h
  end.

(** The body of the effect: [if (isOpen) { loadWorkspaceTree(); const
    interval = setInterval(loadWorkspaceTree, 15000); ... }]. *)
Definition effect (isOpen : bool) (h : Host) : Host :=
  if isOpen then
    mkHost (workspacePanelOpen h) (hasStartedChat h)
           (Some {| seen := true; interval := Some (nextInterval h) |})
           (live h ++ [nextInterval h]) (S (nextInterval h))
           (calls h ++ [panel_open])
  else
    mkHost (workspacePanelOpen h) (hasStartedChat h)
           (Some {| seen := false; interval := None |})
           (live h) (nextInterval h) (calls h).

(** A render of the shell: [{hasStartedChat && <WorkspacePanel
    isOpen={workspacePanelOpen} ... />}]. *)
Definition render (h : Host) : Host :=
  match hasStartedChat h, mounted h with
  | true, None => effect (workspacePanelOpen h) h
  | true, Some e =>
      if Bool.eqb (seen e) (workspacePanelOpen h) then h
      else effect (workspacePanelOpen h) (cleanup e h)
  | false, Some e =>
      let h' := cleanup e h in
      mkHost (workspacePanelOpen h') (hasStartedChat h') None (live h')
             (nextInterval h') (calls h')
  | false, None => h
  end.

Inductive Input :=
| toggle_workspace
| autocomplete_opens
| chat_started (started : bool)
| interval_fires (i : nat).

Definition set_open (b : bool) (h : Host) : Host :=
  mkHost b (hasStartedChat h) (mounted h) (live h) (nextInterval h) (calls h).
Definition set_started (b : bool) (h : Host) : Host :=
  mkHost (workspacePanelOpen h) b (mounted h) (live h) (nextInterval h) (calls h).

Definition react (h : Host) (i : Input) : Host :=
  match i with
  | toggle_workspace => render (set_open (negb (workspacePanelOpen h)) h)
  | autocomplete_opens => render (set_open true h)
  | chat_started b => render (set_started b h)
  | interval_fires i =>
      if existsb (Nat.eqb i) (live h) then
        mkHost (workspacePanelOpen h) (hasStartedChat h) (mounted h) (live h)
               (nextInterval h) (calls h ++ [interval_tick])
      else h
  end.

(** The shell after its first render: the panel starts open, and the chat
    has started when the page was opened in advanced mode. *)
Definition boot (advanced : bool) : Host :=
  render (mkHost true advanced None [] 0 []).

(** The polling is in step with the panel: one live interval, the one the
    last effect set, when the panel is mounted and open, and none
    otherwise. *)
Definition in_step (h : Host) : Prop :=
  match mounted h with
  | Some e =>
      hasStartedChat h = true /\ seen e = workspacePanelOpen h
      /\ (if workspacePanelOpen h
          then exists i, interval e = Some i /\ live h = [i] /\ i < nextInterval h
          else interval e = None /\ live h = [])
  | None => hasStartedChat h = false /\ live h = []
  end.

End AppLayout.

(** * More on the panel's requests *)

(** What has run when the call of an async function returns. The function
    runs up to its first [await], and an [await] always yields, also on a
    promise that is settled already, as [Promise.all] of no promise is: what
    follows it runs later in the same turn of the event loop, before any
    other event is handled, and is part of the same [step]. The promises
    handed to [Promise.all] are started before it is awaited. *)
Fixpoint returned (browser : forall c : SyncCall, Outcome (sret c))
    (p : Async) (c : Config.t) : Config.t :=
  match p with
  | Done | Throw _ => c
  | Act a k => returned browser k (Config.act a c)
  | Call cl k => returned browser (k (browser cl)) (Config.note (called cl) c)
  | Await op k => Config.issue op c
  | All ps k => fst (start_all (advance browser) ps c)
  end.

(** Everything the component can be made to do: an event that runs one
    of its handlers, wired or not, or a gesture on the panel as it is
    rendered. *)
Definition any_step (browser : forall c : SyncCall, Outcome (sret c))
    (c : Config.t) (i : Event + Gesture) : Config.t :=
  match i with
  | inl ev => step browser c ev
  | inr g => gesture_step browser c g
  end.

Definition any_run (browser : forall c : SyncCall, Outcome (sret c))
    (inputs : list (Event + Gesture)) (c : Config.t) : Config.t :=
  fold_left (any_step browser) inputs c.

(** What no handler does as long as no delete is staged: stage one, or
    send a [DELETE]. *)
Definition unstaged_footprint (e : Entry) : Prop :=
  match e with
  | did (setDeleteConfirmation v) => v = None
  | issued _ (fetch _ m _) => m <> DELETE
  | _ => True
  end.

(** The value of a hexadecimal digit. *)
Definition unhex (c : ascii) : N :=
  let n := N_of_ascii c in
  if ((48 <=? n) && (n <=? 57))%N then n - 48
  else if ((65 <=? n) && (n <=? 70))%N then n - 55
  else 0.

(** Reading back what [encodeURIComponent] wrote: [%XY] is the byte with
    the hexadecimal digits [X] and [Y], and every other character is
    itself. *)
Fixpoint unescape (s : string) : string :=
  match s with
  | EmptyString => EmptyString
  | String c r =>
      if Ascii.eqb c "%" then
        match r with
        | String a (String b r') =>
            String (ascii_of_N (16 * unhex a + unhex b)) (unescape r')
        | _ => String c (unescape r)
        end
      else String c (unescape r)
  end.

(** The characters that cut a URL into its parts. *)
Definition delimiter (c : ascii) : bool :=
  existsb (Ascii.eqb c) ["?"; "&"; "="; "#"; "/"; "+"; " "]%char.

Fixpoint string_forallb (p : ascii -> bool) (s : string) : bool :=
  match s with
  | EmptyString => true
  | String c r => p c && string_forallb p r
  end.

(** * Properties *)

(** ** Footprints are kept by the event loop *)

Lemma replay_app es1 es2 s : replay (es1 ++ es2) s = replay es2 (replay es1 s).
Proof. apply fold_left_app. Qed.

Lemma advance_All_eq browser ps k c :
  advance browser (All ps k) c =
  let '(c1, cs) := start_all (advance browser) ps c in
  join (advance browser) cs k c1.
Proof. reflexivity. Qed.

Section FootprintFacts.

Variable browser : forall c : SyncCall, Outcome (sret c).
Variable ok : Entry -> Prop.
Hypothesis ok_settled : forall id a, ok (settled id a).

Lemma within_All ps k :
  within ok (All ps k) <-> Forall (within ok) ps /\ forall o, within ok (k o).
Proof.
  simpl. split; intros [H1 H2]; split; auto; clear H2.
  - induction ps as [|p r IH]; constructor; destruct H1; auto.
  - induction H1; simpl; auto.
Qed.

Lemma swithin_SAll cs k :
  swithin ok (SAll cs k) <-> Forall (swithin ok) cs /\ forall o, within ok (k o).
Proof.
  simpl. split; intros [H1 H2]; split; auto; clear H2.
  - induction cs as [|p r IH]; constructor; destruct H1; auto.
  - induction H1; simpl; auto.
Qed.

Lemma within_on_exit p normal abrupt :
  within ok p -> within ok normal -> (forall e, within ok (abrupt e)) ->
  within ok (on_exit p normal abrupt).
Proof.
  intros Hp Hn Ha. induction p using Async_nested_ind; simpl in *; auto.
  - destruct Hp; auto.
  - destruct Hp; auto.
  - destruct Hp; auto.
  - destruct Hp; auto.
Qed.

Lemma extends_refl c : extends ok c c.
Proof. exists []. rewrite app_nil_r. auto. Qed.

Lemma extends_trans c1 c2 c3 :
  extends ok c1 c2 -> extends ok c2 c3 -> extends ok c1 c3.
Proof.
  intros (es1 & L1 & F1 & S1) (es2 & L2 & F2 & S2).
  exists (es1 ++ es2). rewrite L2, L1, S2, S1, replay_app, <- app_assoc.
  split; [reflexivity|]. split; [|reflexivity].
  apply Forall_app; auto.
Qed.

Lemma extends_note e c : ok e -> (forall a, e <> did a) ->
  extends ok c (Config.note e c).
Proof.
  intros He Hne. exists [e]. simpl. repeat split; auto.
  destruct e; try reflexivity. destruct (Hne a); reflexivity.
Qed.

Lemma extends_act a c : ok (did a) -> extends ok c (Config.act a c).
Proof. intros He. exists [did a]. simpl. repeat split; auto. Qed.

Lemma extends_issue op c :
  ok (issued (Config.nextId c) op) -> extends ok c (Config.issue op c).
Proof. intros He. exists [issued (Config.nextId c) op]. simpl. repeat split; auto. Qed.

Lemma extends_park ss c : extends ok c (Config.park ss c).
Proof. exists []. simpl. rewrite app_nil_r. auto. Qed.

Let sound (c c' : Config.t) (s : Susp) : Prop :=
  extends ok c c' /\ swithin ok s /\ Forall (swithin ok) (Config.pool c').

Lemma join_within cs k c :
  (forall o c0, Forall (swithin ok) (Config.pool c0) ->
     forall c' s, advance browser (k o) c0 = (c', s) -> sound c0 c' s) ->
  Forall (swithin ok) cs -> (forall o, within ok (k o)) ->
  Forall (swithin ok) (Config.pool c) ->
  forall c' s, join (advance browser) cs k c = (c', s) -> sound c c' s.
Proof.
  intros IHk Hcs Hk Hpool c' s. unfold join.
  destruct (settle cs) eqn:E; intros H.
  - eapply IHk; eauto.
  - eapply IHk in H.
    + destruct H as (H1 & H2 & H3). split; [|auto].
      eapply extends_trans; [apply extends_park|exact H1].
    + simpl. apply Forall_app. split; auto.
      apply List.Forall_forall. intros x Hx. apply filter_In in Hx.
      rewrite List.Forall_forall in Hcs. apply Hcs, Hx.
  - inversion H; subst. split; [apply extends_refl|]. split; auto.
    apply swithin_SAll. auto.
Qed.

Lemma advance_within p :
  forall c, within ok p -> Forall (swithin ok) (Config.pool c) ->
  forall c' s, advance browser p c = (c', s) -> sound c c' s.
Proof.
  induction p as [|e|a k IH|cl k IH|op k IH|ps k IHps IHk]
    using Async_nested_ind; intros c Hw Hpool c' s Hadv.
  - inversion Hadv; subst. repeat split; auto. apply extends_refl.
  - inversion Hadv; subst. repeat split; auto. apply extends_refl.
  - simpl in Hadv, Hw. destruct Hw as [Ha Hk].
    apply IH in Hadv; auto. destruct Hadv as (H1 & H2 & H3).
    split; [|auto]. eapply extends_trans; [apply extends_act, Ha|exact H1].
  - simpl in Hadv, Hw. destruct Hw as [Ha Hk].
    apply IH in Hadv; auto. destruct Hadv as (H1 & H2 & H3).
    split; [|auto].
    eapply extends_trans; [apply extends_note; [exact Ha|discriminate]|exact H1].
  - simpl in Hadv, Hw. destruct Hw as [Ha Hk]. inversion Hadv; subst.
    split; [apply extends_issue, Ha|]. split; auto.
  - apply within_All in Hw. destruct Hw as [Hps Hk].
    rewrite advance_All_eq in Hadv.
    destruct (start_all (advance browser) ps c) as [c1 cs] eqn:Est.
    assert (Hst : extends ok c c1 /\ Forall (swithin ok) cs
                  /\ Forall (swithin ok) (Config.pool c1)).
    { clear Hadv Hk IHk. revert c c1 cs Hpool Est.
      induction ps as [|p r IHr]; intros c c1 cs Hpool Est; simpl in Est.
      - inversion Est; subst. repeat split; auto. apply extends_refl.
      - inversion IHps as [|? ? IHp IHps']; subst.
        inversion Hps as [|? ? Hp Hr]; subst.
        destruct (advance browser p c) as [c2 s2] eqn:E2.
        destruct (start_all (advance browser) r c2) as [c3 ss] eqn:E3.
        inversion Est; subst.
        destruct (IHp c Hp Hpool _ _ E2) as (A1 & A2 & A3).
        destruct (IHr IHps' Hr c2 c1 ss A3 E3) as (B1 & B2 & B3).
        split; [eapply extends_trans; eauto|]. split; auto. }
    destruct Hst as (S1 & S2 & S3).
    eapply join_within in Hadv; eauto.
    destruct Hadv as (H1 & H2 & H3). split; [|auto].
    eapply extends_trans; eauto.
Qed.

Lemma first_some_within (res : Susp -> option (Config.t * Susp)) c ss :
  Forall (fun s => swithin ok s ->
            forall c' s', res s = Some (c', s') -> sound c c' s') ss ->
  Forall (swithin ok) ss ->
  forall c' ss', first_some res ss = Some (c', ss') ->
  extends ok c c' /\ Forall (swithin ok) ss'
  /\ Forall (swithin ok) (Config.pool c').
Proof.
  induction ss as [|s r IH]; intros HF Hss c' ss' H; simpl in H.
  - discriminate.
  - inversion HF as [|? ? Hs Hr]; subst.
    inversion Hss as [|? ? Ws Wr]; subst.
    destruct (res s) as [[c1 s1]|] eqn:E.
    + inversion H; subst.
      destruct (Hs Ws _ _ eq_refl) as (A1 & A2 & A3). repeat split; auto.
    + destruct (first_some res r) as [[c1 r1]|] eqn:E1; [|discriminate].
      inversion H; subst.
      destruct (IH Hr Wr _ _ eq_refl) as (A1 & A2 & A3). repeat split; auto.
Qed.

Lemma resume_within id a s :
  forall c, Forall (swithin ok) (Config.pool c) -> swithin ok s ->
  forall c' s', resume browser id a c s = Some (c', s') -> sound c c' s'.
Proof.
  induction s as [|e|id' op k|cs k IH] using Susp_nested_ind;
    intros c Hpool Hs c' s' H; simpl in H; try discriminate.
  - destruct (Nat.eqb id id'); [|discriminate].
    destruct (decode op a) as [o|]; [|discriminate].
    inversion H as [H']. apply advance_within in H'; auto.
    destruct H' as (A1 & A2 & A3). split; [|auto].
    eapply extends_trans; [|exact A1].
    apply extends_note; [apply ok_settled|discriminate].
  - apply swithin_SAll in Hs. destruct Hs as [Hcs Hk].
    destruct (first_some (resume browser id a c) cs) as [[c1 cs1]|] eqn:E;
      [|discriminate].
    inversion H as [H']. clear H.
    eapply first_some_within in E; eauto.
    + destruct E as (A1 & A2 & A3).
      eapply join_within in H'; eauto.
      * destruct H' as (B1 & B2 & B3). split; [|auto].
        eapply extends_trans; eauto.
      * intros o c0 Hp0 c2 s2 Hadv. eapply advance_within; eauto.
    + eapply Forall_impl; [exact IH|]. simpl. intros s0 Hs0 Ws0 c2 s2 Hres.
      eapply Hs0; eauto.
Qed.

Lemma spawn_within p c :
  within ok p -> Forall (swithin ok) (Config.pool c) ->
  extends ok c (spawn browser p c)
  /\ Forall (swithin ok) (Config.pool (spawn browser p c)).
Proof.
  intros Hp Hpool. unfold spawn.
  destruct (advance browser p c) as [c' s] eqn:E.
  apply advance_within in E; auto. destruct E as (A1 & A2 & A3).
  split.
  - eapply extends_trans; [exact A1|apply extends_park].
  - simpl. apply Forall_app. split; auto.
    destruct (is_pending s); auto.
Qed.

Lemma deliver_within id a c :
  Forall (swithin ok) (Config.pool c) ->
  extends ok c (deliver browser id a c)
  /\ Forall (swithin ok) (Config.pool (deliver browser id a c)).
Proof.
  intros Hpool. unfold deliver.
  destruct (first_some _ _) as [[c' ss]|] eqn:E.
  - eapply (first_some_within _ (Config.with_pool [] c)) in E; eauto.
    + destruct E as (A1 & A2 & A3). split.
      * destruct A1 as (es & L & F & S). exists es. simpl in *. repeat split; auto.
      * simpl. apply Forall_app. split; auto.
        apply List.Forall_forall. intros x Hx. apply filter_In in Hx.
        rewrite List.Forall_forall in A2. apply A2, Hx.
    + apply List.Forall_forall. intros s _ Ws c2 s2 Hres.
      eapply resume_within; eauto.
  - split; [apply extends_refl|auto].
Qed.

(** Whatever the interleaving, handlers that stay within [ok] leave a
    log within [ok]. *)
Lemma run_within evs :
  forall c, Forall (fun ev => forall s, within ok (handler s ev)) evs ->
  Forall (swithin ok) (Config.pool c) ->
  extends ok c (run browser evs c)
  /\ Forall (swithin ok) (Config.pool (run browser evs c)).
Proof.
  induction evs as [|ev r IH]; intros c Hevs Hpool; simpl.
  - split; [apply extends_refl|auto].
  - inversion Hevs as [|? ? Hev Hr]; subst.
    assert (Hstep : extends ok c (step browser c ev)
                    /\ Forall (swithin ok) (Config.pool (step browser c ev))).
    { destruct ev; try (apply spawn_within; [apply Hev|exact Hpool]).
      apply deliver_within; auto. }
    destruct Hstep as [S1 S2]. destruct (IH _ Hr S2) as [R1 R2].
    split; [eapply extends_trans; eauto|exact R2].
Qed.

(** A cell no allowed action writes keeps its value. *)
Lemma replay_keeps {A} (cell : State.t -> A) es s :
  (forall a s, ok (did a) -> cell (perform a s) = cell s) ->
  Forall ok es -> cell (replay es s) = cell s.
Proof.
  intros Hcell HF. revert s. induction HF as [|e r He Hr IH]; intros s.
  - reflexivity.
  - simpl. change (fold_left _ r ?x) with (replay r x). rewrite IH.
    destruct e; auto.
Qed.

End FootprintFacts.

(** ** An answer in any context

    What the answer to a promise does is told by the handler that waits
    for it, whatever else is suspended beside it. *)

Lemma resume_elsewhere browser id a s : forall c,
  waits_for id s = false -> resume browser id a c s = None.
Proof.
  induction s as [|e|id' op k|cs k IH] using Susp_nested_ind;
    intros c H; simpl in *; auto.
  - now rewrite H.
  - assert (first_some (resume browser id a c) cs = None) as ->;
      [|reflexivity].
    induction IH as [|s r Hs Hr IHr]; [reflexivity|].
    simpl in H. apply orb_false_iff in H. destruct H as [H1 H2].
    simpl. now rewrite (Hs c H1), (IHr H2).
Qed.

Lemma first_some_at (res : Susp -> option (Config.t * Susp))
    before s after c' s' :
  Forall (fun other => res other = None) before -> res s = Some (c', s') ->
  first_some res (before ++ s :: after) = Some (c', before ++ s' :: after).
Proof.
  intros Hb Hs. induction Hb as [|x r Hx Hr IH]; simpl.
  - now rewrite Hs.
  - now rewrite Hx, IH.
Qed.

Lemma deliver_at browser st log next before after id op k a o :
  Forall (fun other => waits_for id other = false) before ->
  decode op a = Some o ->
  deliver browser id a
    (Config.mk st log next (before ++ SAwait id op k :: after))
  = let '(c', s') :=
      advance browser (k o) (Config.mk st (log ++ [settled id a]) next []) in
    Config.with_pool
      (List.filter is_pending (before ++ s' :: after) ++ Config.pool c') c'.
Proof.
  intros Hb Hd. unfold deliver. simpl Config.pool.
  destruct (advance browser (k o) (Config.mk st (log ++ [settled id a]) next []))
    as [c' s'] eqn:E.
  rewrite (first_some_at _ before (SAwait id op k) after c' s').
  - reflexivity.
  - eapply Forall_impl; [exact Hb|]. intros x Hx. now apply resume_elsewhere.
  - simpl. rewrite Nat.eqb_refl, Hd. f_equal. exact E.
Qed.

Lemma filter_pending_at before s after :
  List.filter is_pending (before ++ s :: after)
  = List.filter is_pending before ++ List.filter is_pending [s]
    ++ List.filter is_pending after.
Proof.
  change (s :: after) with ([s] ++ after). now rewrite !List.filter_app.
Qed.

Ltac runs_to_end :=
  intros ?c; simpl; unfold Config.act, Config.note; simpl;
  rewrite <- ?app_assoc; reflexivity.

(** The three steps of a reload, each in any context. *)
Lemma reload_invoked browser s log next pool t :
  step browser (Config.mk s log next pool) (refresh t)
  = Config.mk (perform (setError None) s)
      (log ++ [did (setError None); issued next import_workspaceService])
      (S next) (pool ++ [SAwait next import_workspaceService afterImport]).
Proof.
  unfold step, spawn, handler. simpl. unfold Config.park, Config.issue, Config.act.
  simpl. rewrite <- app_assoc. reflexivity.
Qed.

Lemma reload_imported browser s log next before after id :
  Forall (fun other => waits_for id other = false) before ->
  deliver browser id loads
    (Config.mk s log next
       (before ++ SAwait id import_workspaceService afterImport :: after))
  = Config.mk s
      (log ++ [settled id loads; issued next getWorkspaceTree]) (S next)
      (List.filter is_pending before
       ++ SAwait next getWorkspaceTree afterTree :: List.filter is_pending after).
Proof.
  intros Hb.
  rewrite (deliver_at browser s log next before after id
             import_workspaceService afterImport loads (Resolved tt) Hb eq_refl).
  simpl. unfold Config.with_pool, Config.issue. simpl.
  rewrite filter_pending_at, app_nil_r, <- app_assoc. reflexivity.
Qed.

Lemma answered_to_end browser s log next before after id op k a o es :
  Forall (fun other => waits_for id other = false) before ->
  decode op a = Some o ->
  (forall c, advance browser (k o) c
             = (Config.mk (replay es (Config.state c)) (Config.log c ++ es)
                  (Config.nextId c) (Config.pool c), SDone)) ->
  deliver browser id a (Config.mk s log next (before ++ SAwait id op k :: after))
  = Config.mk (replay es s) (log ++ settled id a :: es) next
      (List.filter is_pending before ++ List.filter is_pending after).
Proof.
  intros Hb Hd Hk.
  rewrite (deliver_at browser s log next before after id op k a o Hb Hd), Hk.
  simpl. unfold Config.with_pool. simpl.
  rewrite filter_pending_at, app_nil_r, <- app_assoc. reflexivity.
Qed.

(** ** Expansion state *)

(** C9: toggling a path flips its membership in the expansion set and that
    of no other path, so toggling the same path twice gives the set back;
    the same holds of two clicks on a directory. *)
Theorem toggle_is_involution
    (browser : forall c : SyncCall, Outcome (sret c))
    (S : gset string) (p q : string) (s : State.t)
    (nm : string) (ch : option (list FileNode)) :
  (q ∈ newExpanded S p <-> if decide (q = p) then q ∉ S else q ∈ S)
  /\ newExpanded (newExpanded S p) p = S
  /\ let d := mkFileNode nm p directory ch in
     State.expandedFolders
       (Config.state (step browser (Config.start s) (click_node d)))
     = newExpanded (State.expandedFolders s) p
     /\ Config.state (run browser [click_node d; click_node d] (Config.start s))
        = s.
Proof.
  assert (Hinv : forall S : gset string, newExpanded (newExpanded S p) p = S).
  { intros S0. unfold newExpanded.
    destruct (decide (p ∈ S0)) as [Hin|Hout].
    - rewrite decide_False by set_solver.
      apply set_eq. intros x. destruct (decide (x = p)); set_solver.
    - rewrite decide_True by set_solver.
      apply set_eq. intros x. destruct (decide (x = p)); set_solver. }
  split; [|split; [apply Hinv|]].
  - unfold newExpanded. destruct (decide (q = p)) as [->|Hne];
      destruct (decide (p ∈ S)); set_solver.
  - destruct s as [t x f l e d g]. simpl. split; [reflexivity|].
    unfold run, step, spawn. simpl. f_equal. apply Hinv.
Qed.

(** ** Reloading the tree *)

(** C3, as stated, fails: two reloads are in flight; the second is
    rejected and sets the error, then the first is answered with a tree. Its
    request has succeeded and its tree is the one shown, yet the error is
    displayed still. *)
Lemma stale_error_after_reload :
  let docs := mkFileNode "docs" "/docs" directory None in
  let c := run quiet_browser
             [refresh panel_open; refresh interval_tick;
              completes 0 loads; completes 1 loads;
              completes 3 (rejects (Error "Failed to fetch"));
              completes 2 (lists {| tree := Some [docs] |})]
             (Config.start State.initial) in
  State.fileTree (Config.state c) = [docs]
  /\ State.error (Config.state c) <> None.
Proof. split; [reflexivity|discriminate]. Qed.

(** C3, amended: a reload clears the error when it is invoked, and not
    later. Whatever else is suspended beside it and whatever the state has
    become: when its request is answered with a tree, the tree is replaced by
    the one in the response (by the empty tree when the response has none)
    and the error is left as it is at that moment; when the import or the
    request is rejected, the tree is left as it is and the error is set. A
    reload that runs alone therefore ends with the new tree and no error, or
    with the tree of before and the error. *)
Theorem refresh_writes_tree_or_error
    (browser : forall c : SyncCall, Outcome (sret c))
    (s : State.t) (log : list Entry) (next : nat) (before after : list Susp)
    (id : nat) (t : Trigger) (data : TreeData) (e : Exn) (r : RefreshResult) :
  let invoked :=
    step browser (Config.mk s log next (before ++ after)) (refresh t) in
  let importing :=
    Config.mk s log next
      (before ++ SAwait id import_workspaceService afterImport :: after) in
  let requesting :=
    Config.mk s log next
      (before ++ SAwait id getWorkspaceTree afterTree :: after) in
  let imported := deliver browser id loads importing in
  let listed := deliver browser id (lists data) requesting in
  let alone :=
    run browser (refresh t :: refresh_completions 0 r) (Config.start s) in
  (State.error (Config.state invoked) = None
   /\ State.fileTree (Config.state invoked) = State.fileTree s
   /\ Config.pool invoked
      = (before ++ after) ++ [SAwait next import_workspaceService afterImport])
  /\ (Forall (fun other => waits_for id other = false) before ->
      (Config.state imported = s
       /\ Config.pool imported
          = List.filter is_pending before
            ++ SAwait next getWorkspaceTree afterTree
               :: List.filter is_pending after)
      /\ (State.fileTree (Config.state listed) = default [] (tree data)
          /\ State.error (Config.state listed) = State.error s)
      /\ Forall (fun failed : Config.t =>
                   State.fileTree (Config.state failed) = State.fileTree s
                   /\ State.error (Config.state failed)
                      = Some "Error loading workspace")
           [deliver browser id (rejects e) importing;
            deliver browser id (rejects e) requesting])
  /\ Config.pool alone = []
  /\ match r with
     | tree_listed data =>
         State.fileTree (Config.state alone) = default [] (tree data)
         /\ State.error (Config.state alone) = None
     | _ =>
         State.fileTree (Config.state alone) = State.fileTree s
         /\ State.error (Config.state alone) = Some "Error loading workspace"
     end.
Proof.
  intros invoked importing requesting imported listed alone.
  subst invoked imported listed importing requesting alone.
  split; [rewrite reload_invoked; destruct s; repeat split; reflexivity|].
  split; [|destruct s, r; simpl; auto].
  intros Hfresh.
  rewrite (reload_imported browser s log next before after id Hfresh).
  rewrite (answered_to_end browser s log next before after id
             getWorkspaceTree afterTree (lists data) (Resolved data)
             [did (setFileTree (default [] (tree data)))] Hfresh eq_refl)
    by runs_to_end.
  rewrite (answered_to_end browser s log next before after id
             getWorkspaceTree afterTree (rejects e) (Rejected e)
             [did (console_error "Error loading workspace:");
              did (setError (Some "Error loading workspace"))] Hfresh eq_refl)
    by runs_to_end.
  rewrite (answered_to_end browser s log next before after id
             import_workspaceService afterImport (rejects e) (Rejected e)
             [did (console_error "Error loading workspace:");
              did (setError (Some "Error loading workspace"))] Hfresh eq_refl)
    by runs_to_end.
  destruct s as [tr x f l e0 d g].
  split; [split; reflexivity|].
  split; [split; reflexivity|].
  repeat constructor.
Qed.

(** The amended C3 for a reload answered while another, asked after it,
    waits for its tree. *)
Lemma refresh_writes_tree_or_error_witness :
  let other := SAwait 3 getWorkspaceTree afterTree in
  let requesting :=
    Config.mk State.initial [] 4 [other; SAwait 2 getWorkspaceTree afterTree] in
  let listed :=
    deliver quiet_browser 2 (lists {| tree := Some [] |}) requesting in
  Forall (fun x => waits_for 2 x = false) [other]
  /\ State.fileTree (Config.state listed) = []
  /\ State.error (Config.state listed) = None.
Proof.
  assert (H : Forall (fun x => waits_for 2 x = false)
                [SAwait 3 getWorkspaceTree afterTree])
    by (repeat constructor).
  split; [exact H|].
  exact (proj1 (proj2
    (proj1 (proj2
      (refresh_writes_tree_or_error quiet_browser State.initial [] 4
         [SAwait 3 getWorkspaceTree afterTree] [] 2 panel_open
         {| tree := Some [] |} Thrown (import_rejected Thrown))) H))).
Defined.

Lemma loadWorkspaceTree_footprint : within refresh_footprint loadWorkspaceTree.
Proof.
  simpl. repeat split; auto; intros [x|e]; simpl; auto.
  repeat split; auto. intros [y|e]; simpl; auto.
Qed.

(** ** The view reads the expansion set at the paths of the tree only *)

Lemma renderNode_agrees (S S' : gset string) hl node :
  (forall p, p ∈ node_paths node -> p ∈ S <-> p ∈ S') ->
  forall level, renderNode S hl level node = renderNode S' hl level node.
Proof.
  induction node as [nm p ty ch IH] using FileNode_nested_ind.
  intros Hag level. simpl.
  assert (Hp : p ∈ S <-> p ∈ S') by (apply Hag; simpl; set_solver).
  assert (Hd : forall A (x y : A),
             (if decide (p ∈ S) then x else y)
             = (if decide (p ∈ S') then x else y)).
  { intros A x y. destruct (decide (p ∈ S)), (decide (p ∈ S')); tauto. }
  rewrite Hd. f_equal. destruct ty; [reflexivity|]. rewrite Hd.
  destruct (decide (p ∈ S')); [|reflexivity].
  destruct ch as [nodes|]; [|reflexivity]. f_equal.
  specialize (IH nodes eq_refl).
  assert (Hsub : forall n, In n nodes ->
                 forall q, q ∈ node_paths n -> q ∈ S <-> q ∈ S').
  { intros n Hn q Hq. apply Hag. simpl. apply elem_of_union. right.
    apply elem_of_union_list. exists (node_paths n). split; [|exact Hq].
    apply list_elem_of_In, in_map, Hn. }
  clear Hag Hd. revert level. induction IH as [|n r Hn Hr IHr]; intros level.
  - reflexivity.
  - simpl. f_equal.
    + apply Hn. apply Hsub. left. reflexivity.
    + apply IHr. intros m Hm. apply Hsub. right. exact Hm.
Qed.

Lemma renderFileTree_stale_unused (S : gset string) hl nodes level :
  renderFileTree S hl nodes level
  = renderFileTree (S ∩ tree_paths nodes) hl nodes level.
Proof.
  unfold renderFileTree. apply map_ext_in. intros n Hn.
  apply renderNode_agrees. intros p Hp.
  assert (p ∈ tree_paths nodes).
  { apply elem_of_union_list. exists (node_paths n). split; [|exact Hp].
    apply list_elem_of_In, in_map, Hn. }
  set_solver.
Qed.

(** C8: however reloads are triggered and however they complete, the
    expansion set and the selected file keep their values: a reload writes
    the tree and the error only. A path that is expanded stays in the set
    whether the new tree has it or not, and the view is the one of the set
    restricted to the paths of the tree: an entry for a path that is gone
    is not read. *)
Theorem refresh_keeps_expansion
    (browser : forall c : SyncCall, Outcome (sret c))
    (s : State.t) (evs : list (Trigger + nat * Answer))
    (hl : option string) (level : nat) :
  let s' := Config.state (run browser (map refresh_event evs) (Config.start s)) in
  State.expandedFolders s' = State.expandedFolders s
  /\ State.selectedFile s' = State.selectedFile s
  /\ State.loading s' = State.loading s
  /\ State.deleteConfirmation s' = State.deleteConfirmation s
  /\ renderFileTree (State.expandedFolders s') hl (State.fileTree s') level
     = renderFileTree (State.expandedFolders s ∩ tree_paths (State.fileTree s'))
         hl (State.fileTree s') level.
Proof.
  intros s'.
  destruct (run_within browser refresh_footprint (fun _ _ => I)
              (map refresh_event evs) (Config.start s)) as [Hext _].
  { apply Forall_map, List.Forall_forall. intros [t|[id a]] _ s0; simpl; auto.
    apply loadWorkspaceTree_footprint. }
  { constructor. }
  destruct Hext as (es & _ & Hok & Hst). simpl in Hst. fold s' in Hst.
  assert (Hcell : forall A (cell : State.t -> A),
            (forall a s0, refresh_footprint (did a) ->
                          cell (perform a s0) = cell s0) ->
            cell s' = cell s).
  { intros A cell Hc. rewrite Hst. eapply replay_keeps; eauto. }
  assert (E : State.expandedFolders s' = State.expandedFolders s).
  { apply Hcell. intros [] [] Hf; simpl in *; tauto. }
  repeat split.
  - exact E.
  - apply Hcell. intros [] [] Hf; simpl in *; tauto.
  - apply Hcell. intros [] [] Hf; simpl in *; tauto.
  - apply Hcell. intros [] [] Hf; simpl in *; tauto.
  - rewrite E. apply renderFileTree_stale_unused.
Qed.

(** ** The preview gate *)

Lemma toLowerCase_app a b :
  Js.toLowerCase (a +:+ b) = Js.toLowerCase a +:+ Js.toLowerCase b.
Proof. induction a as [|c a IH]; simpl; [reflexivity|]. now rewrite IH. Qed.

Lemma toLowerCase_split s : forall a b,
  Js.toLowerCase s = a +:+ b ->
  exists s1 s2, s = s1 +:+ s2 /\ Js.toLowerCase s1 = a /\ Js.toLowerCase s2 = b.
Proof.
  intros a. revert s. induction a as [|c a IH]; intros s b H.
  - exists "", s. auto.
  - destruct s as [|c0 s]; simpl in H; [discriminate|].
    inversion H as [[Hc Hs]]. destruct (IH _ _ Hs) as (s1 & s2 & E & L1 & L2).
    exists (String c0 s1), s2. subst. auto.
Qed.

Lemma substring_all s : substring 0 (String.length s) s = s.
Proof. induction s as [|c s IH]; simpl; [reflexivity|]. now rewrite IH. Qed.

Lemma substring_skip stem s :
  substring (String.length stem) (String.length s) (stem +:+ s) = s.
Proof. induction stem as [|c stem IH]; simpl; [apply substring_all|exact IH]. Qed.

Lemma substring_split s : forall k, (k <= String.length s)%nat ->
  s = substring 0 k s +:+ substring k (String.length s - k) s.
Proof.
  induction s as [|c s IH]; intros k Hk.
  - destruct k; reflexivity.
  - destruct k as [|k]; simpl.
    + now rewrite substring_all.
    + change (String c s = String c (substring 0 k s
                                   +:+ substring k (String.length s - k) s)).
      f_equal. apply IH. simpl in Hk. lia.
Qed.

Lemma append_length a b :
  String.length (a +:+ b) = (String.length a + String.length b)%nat.
Proof. induction a as [|c a IH]; simpl; [reflexivity|]. now rewrite IH. Qed.

Lemma endsWith_spec s suffix :
  Js.endsWith s suffix = true <-> exists stem, s = stem +:+ suffix.
Proof.
  unfold Js.endsWith. split.
  - destruct (Nat.leb_spec (String.length suffix) (String.length s)) as [Hle|];
      [|discriminate].
    intros H. apply String.eqb_eq in H.
    remember (String.length s - String.length suffix)%nat as k eqn:Ek.
    exists (substring 0 k s). rewrite <- H.
    replace (String.length suffix) with (String.length s - k)%nat by lia.
    apply substring_split. lia.
  - intros [stem ->]. rewrite append_length.
    destruct (Nat.leb_spec (String.length suffix)
                (String.length stem + String.length suffix)) as [_|]; [|lia].
    replace (String.length stem + String.length suffix - String.length suffix)%nat
      with (String.length stem) by lia.
    rewrite substring_skip. apply String.eqb_refl.
Qed.

Lemma same_letter_lower c d :
  same_letter c d -> Js.lower_ascii c = Js.lower_ascii d.
Proof.
  intros [->|[H|H]]; [reflexivity| |]; simpl in H;
    repeat (destruct H as [H|H]; [inversion H; reflexivity|]);
    destruct H.
Qed.

Lemma lower_is_same_letter c : same_letter c (Js.lower_ascii c).
Proof.
  destruct c as [[] [] [] [] [] [] [] []];
    first [left; reflexivity
          |right; right; simpl; repeat (first [left; reflexivity|right])].
Qed.

Lemma caseless_lower a b :
  caseless a b -> Js.toLowerCase a = Js.toLowerCase b.
Proof.
  induction 1 as [|c d r t Hc Hr IH]; [reflexivity|].
  simpl. now rewrite (same_letter_lower c d Hc), IH.
Qed.

Lemma caseless_toLowerCase a : caseless a (Js.toLowerCase a).
Proof.
  induction a as [|c a IH]; simpl; constructor;
    [apply lower_is_same_letter|exact IH].
Qed.

Lemma previewableExtensions_lower ext :
  In ext previewableExtensions ->
  Js.toLowerCase ext = ext /\ In ext textExtensions.
Proof.
  intros H. split; [|exact H].
  simpl in H. repeat (destruct H as [<-|H]; [reflexivity|]). destruct H.
Qed.

Lemma isTextFile_spec fileName :
  isTextFile fileName = true <-> previewable_suffix fileName.
Proof.
  unfold isTextFile, previewable_suffix. rewrite existsb_exists. split.
  - intros (ext & Hin & He). apply endsWith_spec in He. destruct He as [stem He].
    apply toLowerCase_split in He. destruct He as (s1 & s2 & E & _ & L2).
    exists s1, s2, ext. split; [exact E|]. split; [exact Hin|].
    rewrite <- L2. apply caseless_toLowerCase.
  - intros (stem & suffix & ext & -> & Hin & Hc).
    destruct (previewableExtensions_lower ext Hin) as [Hl Ht].
    exists ext. split; [exact Ht|].
    apply endsWith_spec. exists (Js.toLowerCase stem).
    rewrite toLowerCase_app, (caseless_lower _ _ Hc), Hl. reflexivity.
Qed.

Lemma promises_app es1 es2 : promises (es1 ++ es2) = promises es1 ++ promises es2.
Proof. apply flat_map_app. Qed.

Lemma network_calls_app es1 es2 :
  network_calls (es1 ++ es2) = network_calls es1 ++ network_calls es2.
Proof. unfold network_calls. now rewrite promises_app, List.filter_app. Qed.

Lemma no_request_network_calls es : Forall no_request es -> network_calls es = [].
Proof.
  induction 1 as [|e r He Hr IH]; [reflexivity|].
  change (e :: r) with ([e] ++ r). rewrite network_calls_app, IH, app_nil_r.
  destruct e; try reflexivity. unfold network_calls. simpl in *. now rewrite He.
Qed.

Lemma completions_handlers ok answers :
  Forall (fun ev => forall s, within ok (handler s ev)) (completions answers).
Proof.
  apply Forall_map, List.Forall_forall. intros [id a] _ s. exact I.
Qed.

(** With nothing suspended, completions change nothing. *)
Lemma run_completions_idle browser answers c :
  Config.pool c = [] -> run browser (completions answers) c = c.
Proof.
  intros Hp. induction answers as [|[id a] r IH]; [reflexivity|].
  simpl. unfold deliver. rewrite Hp. simpl. exact IH.
Qed.

Lemma run_cons browser ev evs c :
  run browser (ev :: evs) c = run browser evs (step browser c ev).
Proof. reflexivity. Qed.

Lemma run_app browser evs1 evs2 c :
  run browser (evs1 ++ evs2) c = run browser evs2 (run browser evs1 c).
Proof. apply fold_left_app. Qed.

(** C4, as stated, fails: [notes.md] is previewable, but its path holds
    a surrogate without its partner. The URL of the request cannot be built:
    the preview ends in its catch block and no request is made. *)
Lemma malformed_path_is_not_fetched :
  let f := mkFileNode "notes.md" ("/" +:+ unpaired +:+ "/notes.md") file None in
  let c := run quiet_browser [click_node f] (Config.start State.initial) in
  isTextFile (name f) = true
  /\ network_calls (Config.log c) = []
  /\ notices (Config.log c) = ["Error loading file"].
Proof. repeat split. Qed.

(** C4, amended: the preview of a file whose name does not end,
    case-insensitively, with an allow-listed extension asks nothing of the
    backend, shows the notice and leaves the state as it was. The preview of
    a file whose name does, issues one request, for the content of that
    file, and whatever the answers no other, when the path of the file is
    well-formed text; when the path holds a surrogate without its partner,
    no request is made, the error notice is shown and the selected file
    stays. *)
Theorem preview_extension_gate
    (browser : forall c : SyncCall, Outcome (sret c))
    (s : State.t) (nm p : string) (ch : option (list FileNode))
    (answers : list (nat * Answer)) :
  let f := mkFileNode nm p file ch in
  let c := run browser (click_node f :: completions answers) (Config.start s) in
  (isTextFile nm = true <-> previewable_suffix nm)
  /\ if isTextFile nm then
       match Js.encodeURIComponent p with
       | Some component =>
           network_calls (Config.log c)
           = [fetch ("/api/workspace/file?path=" +:+ component) GET None]
       | None =>
           Config.log c
           = [did (setLoading true); did (console_error "Error loading file:");
              did (alert "Error loading file"); did (setLoading false)]
           /\ State.selectedFile (Config.state c) = State.selectedFile s
       end
     else
       Config.log c = [did (alert "Only text and markdown files can be previewed")]
       /\ Config.state c = s.
Proof.
  intros f c. split; [apply isTextFile_spec|].
  subst c. rewrite run_cons.
  unfold step, spawn, handler, handleFileClick. simpl type. simpl name.
  destruct (isTextFile nm) eqn:E; simpl negb; cbv iota.
  - simpl path. unfold encodeURIComponent.
    destruct (Js.encodeURIComponent p) as [component|].
    + match goal with |- context [run _ _ ?c1] => set (c1' := c1) end.
      destruct (run_within browser no_request (fun _ _ => I)
                  (completions answers) c1') as [Hext _].
      { apply completions_handlers. }
      { subst c1'. simpl. constructor; [|constructor]. simpl.
        intros [[[] msg]|e]; simpl; auto. split; auto.
        intros [j|e]; simpl; auto. }
      destruct Hext as (es & L & Hq & _). rewrite L, network_calls_app.
      rewrite (no_request_network_calls es Hq), app_nil_r. reflexivity.
    + rewrite run_completions_idle by reflexivity.
      destruct s; simpl. auto.
  - rewrite run_completions_idle by reflexivity.
    destruct s; simpl. auto.
Qed.

(** ** Concurrent previews *)

(** C1, as stated, fails: [a.txt] is previewed, then [b.md]; [b.md]
    resolves first and [a.txt] after it. The selected file is then the
    content of [a.txt], not that of [b.md]. *)
Lemma stale_preview_is_committed :
  let A := mkFileNode "a.txt" "/a.txt" file None in
  let B := mkFileNode "b.md" "/b.md" file None in
  let c := run quiet_browser
             (overtaken_preview A B (Build_Response true "OK")
                (Build_Response true "OK") "content of a" "content of b")
             (Config.start State.initial) in
  State.selectedFile (Config.state c) <> Some (preview_of B "content of b")
  /\ State.selectedFile (Config.state c) = Some (preview_of A "content of a").
Proof. split; [discriminate|reflexivity]. Qed.

(** C1, amended: when [A] resolves after [B], both successfully, [B]'s
    result is committed first and then [A]'s over it: the selected file is
    the result of the preview that resolved last. No completion is dropped.
    The two requests are both made exactly when the two paths are
    well-formed text; otherwise fewer than two are, and there are no two
    completions to order. *)
Theorem last_resolved_preview_wins
    (browser : forall c : SyncCall, Outcome (sret c))
    (s : State.t) (A B : FileNode) (stA stB contentA contentB : string)
    (HA : type A = file) (HB : type B = file)
    (HtA : isTextFile (name A) = true) (HtB : isTextFile (name B) = true) :
  let evs := overtaken_preview A B (Build_Response true stA)
               (Build_Response true stB) contentA contentB in
  if Js.isWellFormed (path A) && Js.isWellFormed (path B) then
    State.selectedFile (Config.state (run browser (firstn 4 evs) (Config.start s)))
    = Some (preview_of B contentB)
    /\ State.selectedFile (Config.state (run browser evs (Config.start s)))
       = Some (preview_of A contentA)
    /\ Config.pool (run browser evs (Config.start s)) = []
  else
    length (fetches (Config.log (run browser (firstn 2 evs) (Config.start s))))
    < 2.
Proof.
  destruct s as [t x f l e d g].
  unfold overtaken_preview, run, firstn, fold_left, step, spawn, handler,
    handleFileClick, encodeURIComponent, Js.encodeURIComponent.
  simpl Config.state. simpl State.expandedFolders.
  rewrite HA, HB, HtA, HtB.
  destruct (Js.isWellFormed (path A)), (Js.isWellFormed (path B)); simpl; auto.
Qed.

(** The amended C1 at [a.txt] and [b.md]. *)
Lemma last_resolved_preview_wins_witness :
  let A := mkFileNode "a.txt" "/a.txt" file None in
  let B := mkFileNode "b.md" "/b.md" file None in
  let evs := overtaken_preview A B (Build_Response true "OK")
               (Build_Response true "OK") "content of a" "content of b" in
  State.selectedFile
    (Config.state (run quiet_browser (firstn 4 evs) (Config.start State.initial)))
  = Some (preview_of B "content of b")
  /\ State.selectedFile
       (Config.state (run quiet_browser evs (Config.start State.initial)))
     = Some (preview_of A "content of a")
  /\ Config.pool (run quiet_browser evs (Config.start State.initial)) = [].
Proof.
  apply (last_resolved_preview_wins quiet_browser State.initial
           (mkFileNode "a.txt" "/a.txt" file None)
           (mkFileNode "b.md" "/b.md" file None));
    reflexivity.
Defined.

(** ** Download *)

(** C6, as stated, fails: the blob is read and its URL created, then the
    click throws. The handler ends in its catch block and the URL has not
    been released. *)
Lemma click_throw_leaks_url :
  let c := run throwing_click_browser
             (click_download "/x.txt" "x.txt"
              :: download_completions (blob_read "OK" (mkBlob "x")))
             (Config.start State.initial) in
  materialized (Config.log c) = [mkBlob "x"]
  /\ Config.pool c = []
  /\ revocations "blob:x" (Config.log c) <> 1.
Proof. repeat split. discriminate. Qed.

(** C6, amended: a download whose blob is read creates one URL; when the
    click returns, the URL is released once; when the click throws, the
    catch block shows the notice and the URL is not released. A download
    that fails earlier creates no URL, and so does one for a path that holds
    a surrogate without its partner, for which no request can be made. No
    path writes the state. *)
Theorem download_releases_after_click
    (browser : forall c : SyncCall, Outcome (sret c))
    (s : State.t) (filePath fileName : string) (r : DownloadResult) :
  let c := run browser (click_download filePath fileName
                        :: download_completions r) (Config.start s) in
  Config.pool c = [] /\ Config.state c = s
  /\ if Js.isWellFormed filePath then
       match r with
       | blob_read _ b =>
           match browser (createObjectURL b) with
           | Resolved url =>
               materialized (Config.log c) = [b]
               /\ match browser (click {| href := url; download := fileName |}) with
                  | Resolved _ =>
                      revocations url (Config.log c) = 1
                      /\ notices (Config.log c) = []
                  | Rejected _ =>
                      revocations url (Config.log c) = 0
                      /\ notices (Config.log c) = ["Error downloading file"]
                  end
           | Rejected _ =>
               forall url, revocations url (Config.log c) = 0
           end
       | download_refused _ =>
           materialized (Config.log c) = []
           /\ notices (Config.log c) = ["Failed to download file"]
       | _ =>
           materialized (Config.log c) = []
           /\ notices (Config.log c) = ["Error downloading file"]
       end
     else
       promises (Config.log c) = []
       /\ materialized (Config.log c) = []
       /\ notices (Config.log c) = ["Error downloading file"].
Proof.
  destruct s as [t x f l e d g].
  destruct (Js.isWellFormed filePath) eqn:Ew;
    destruct r as [e0|st|st e0|st b];
    unfold run, download_completions, fold_left, step, spawn, handler,
      handleDownload, encodeURIComponent, Js.encodeURIComponent;
    rewrite Ew; simpl; auto.
  destruct (browser (createObjectURL b)) as [url|e0] eqn:Eu.
  - destruct (browser (click _)) as [[]|e0] eqn:Ec;
      unfold deliver, spawn; simpl; rewrite Eu; simpl; rewrite Ec; simpl.
    + unfold revocations. simpl. rewrite String.eqb_refl. auto.
    + auto.
  - unfold deliver, spawn; simpl. rewrite Eu. simpl. auto.
Qed.

(** ** Delete *)








(** C10: when the confirm handler has finished, whether the delete
    succeeded, was refused or threw, and however the reload after a success
    went, no confirmation is staged and the loading flag is down. *)
Theorem delete_confirm_clears_staging
    (browser : forall c : SyncCall, Outcome (sret c))
    (t : list FileNode) (x : gset string) (sel : option Selected.t)
    (l : bool) (e : option string) (f : FileNode) (isOpen g : bool)
    (res : DeleteResult) :
  let s := State.mk t x sel l e (Some (DeleteConfirmation.mk f isOpen)) g in
  let c := run browser (confirm_delete :: delete_completions res)
             (Config.start s) in
  Config.pool c = []
  /\ State.deleteConfirmation (Config.state c) = None
  /\ State.loading (Config.state c) = false.
Proof.
  destruct res as [e0|st|st [e1|e1|data]];
    unfold run, delete_completions, refresh_completions, fold_left, step,
      spawn, handler, handleDeleteConfirm, encodeURIComponent;
    simpl State.selectedFile; simpl State.deleteConfirmation; cbv iota;
    simpl DeleteConfirmation.file;
    destruct (Js.encodeURIComponent (path f)) as [component|]; simpl; auto;
    destruct sel as [sel0|]; simpl; auto;
    destruct (String.eqb (Selected.path sel0) (path f)); simpl; auto.
Qed.

(** ** Upload *)

Lemma uploadOne_eq f :
  uploadOne f = Await (upload_request f) (afterUploadResponse f).
Proof. reflexivity. Qed.

Lemma handleFileUpload_eq files :
  handleFileUpload files
  = (setLoading true ;; setError None ;;
     All (map uploadOne files) afterUploads)%async.
Proof.
  unfold handleFileUpload, try_finally, try_catch, await_all. simpl.
  do 3 f_equal.
Qed.

Lemma start_all_cons adv p ps c :
  start_all adv (p :: ps) c
  = let '(c1, s) := adv p c in
    let '(c2, ss) := start_all adv ps c1 in (c2, s :: ss).
Proof. reflexivity. Qed.

Lemma advance_Act_eq browser a k c :
  advance browser (Act a k) c = advance browser k (Config.act a c).
Proof. reflexivity. Qed.

Section UploadFacts.

Variable browser : forall c : SyncCall, Outcome (sret c).

(** The requests go out one after the other before anything is awaited. *)
Lemma start_all_uploads files : forall c,
  exists c' cs,
    start_all (advance browser) (map uploadOne files) c = (c', cs)
    /\ Config.log c' = Config.log c ++ upload_requests (Config.nextId c) files
    /\ Config.state c' = Config.state c /\ Config.pool c' = Config.pool c
    /\ Forall uploading cs /\ length cs = length files
    /\ done_count cs = 0.
Proof.
  induction files as [|f r IH]; intros c.
  - exists c, []. simpl. rewrite app_nil_r. repeat split; auto.
  - destruct (IH (Config.issue (upload_request f) c))
      as (c' & cs & E & L & S & P & U & Len & D).
    exists c', (SAwait (Config.nextId c) (upload_request f)
                  (afterUploadResponse f) :: cs).
    simpl map. rewrite start_all_cons, uploadOne_eq.
    cbn [advance]. rewrite E. rewrite L. simpl. rewrite <- app_assoc.
    repeat split; auto.
    constructor; [constructor|exact U].
Qed.

Lemma settle_uploading cs :
  Forall uploading cs ->
  (settle cs = AllFulfilled /\ done_count cs = length cs)
  \/ (settle cs = StillPending /\ done_count cs < length cs).
Proof.
  unfold done_count.
  induction 1 as [|s r Hs Hr IH]; [left; auto|].
  assert (Hle : length (List.filter (fun s => negb (is_pending s)) r)
                <= length r) by apply filter_length_le.
  destruct Hs; simpl.
  - right. destruct IH as [[E _]|[E _]]; rewrite E; split; auto; lia.
  - right. destruct IH as [[E _]|[E _]]; rewrite E; split; auto; lia.
  - destruct IH as [[E D]|[E D]]; [left|right]; split; auto; lia.
Qed.

Lemma done_count_cons s r :
  done_count (s :: r) = (if is_pending s then 0 else 1) + done_count r.
Proof. unfold done_count. simpl. destruct (is_pending s); reflexivity. Qed.

(** One completion moves one upload forward, or makes it fail. *)
Lemma resume_uploading id a c s c' s' :
  uploading s -> resume browser id a c s = Some (c', s') ->
  Config.state c' = Config.state c /\ Config.pool c' = Config.pool c
  /\ is_pending s = true
  /\ ((uploading s' /\ failing a = false
       /\ exists es, Config.log c' = Config.log c ++ es /\ Forall calm es
                     /\ done_count [s'] = fulfilled es)
      \/ ((exists e, s' = SFailed e) /\ failing a = true
          /\ Config.log c' = Config.log c ++ [settled id a])).
Proof.
  intros Hs H. destruct Hs as [id0 f|id0|]; simpl in H; try discriminate;
    destruct (Nat.eqb id id0); try discriminate.
  - destruct a as [e|r| | | |]; simpl in H; try discriminate.
    + inversion H; subst. simpl. repeat split; auto. right. eauto.
    + destruct r as [[] st]; simpl in H; inversion H; subst; simpl;
        repeat split; auto.
      * left. split; [apply awaits_body|]. split; [reflexivity|].
        eexists. split; [rewrite <- app_assoc; reflexivity|].
        split; [|reflexivity]. repeat constructor.
      * right. eauto.
  - destruct a as [e| |j| | |]; simpl in H; try discriminate;
      inversion H; subst; simpl; repeat split; auto.
    + right. eauto.
    + left. split; [constructor|]. split; [reflexivity|].
      eexists. split; [reflexivity|]. split; [|reflexivity].
      repeat constructor.
Qed.

Lemma first_some_uploading id a c cs : forall c' cs',
  Forall uploading cs ->
  first_some (resume browser id a c) cs = Some (c', cs') ->
  length cs' = length cs
  /\ Config.state c' = Config.state c /\ Config.pool c' = Config.pool c
  /\ ((Forall uploading cs' /\ failing a = false
       /\ exists es, Config.log c' = Config.log c ++ es /\ Forall calm es
                     /\ done_count cs' = done_count cs + fulfilled es)
      \/ ((exists e, settle cs' = OneRejected e) /\ failing a = true
          /\ Config.log c' = Config.log c ++ [settled id a]
          /\ Forall uploading (List.filter is_pending cs'))).
Proof.
  induction cs as [|s r IH]; intros c' cs' Hcs H; simpl in H; [discriminate|].
  inversion Hcs as [|? ? Hs Hr]; subst.
  destruct (resume browser id a c s) as [[c1 s1]|] eqn:E.
  - inversion H; subst. clear H.
    destruct (resume_uploading _ _ _ _ _ _ Hs E) as (S1 & P1 & Pe & [C|F]).
    + destruct C as (U1 & Fa & es & L & Cm & D).
      repeat split; auto. left. repeat split; auto.
      exists es. repeat split; auto.
      rewrite !done_count_cons, Pe, <- D, done_count_cons.
      change (done_count []) with 0. destruct (is_pending s1); lia.
    + destruct F as ([e ->] & Fa & L).
      repeat split; auto. right. repeat split; eauto.
      simpl. apply List.Forall_forall. intros y Hy. apply filter_In in Hy.
      rewrite List.Forall_forall in Hr. apply Hr, Hy.
  - destruct (first_some (resume browser id a c) r) as [[c1 r1]|] eqn:E1;
      [|discriminate].
    inversion H; subst. clear H.
    destruct (IH _ _ Hr eq_refl) as (Len & S1 & P1 & [C|F]).
    + destruct C as (U1 & Fa & es & L & Cm & D).
      simpl. repeat split; auto. left. repeat split; auto.
      exists es. repeat split; auto. rewrite !done_count_cons, D. lia.
    + destruct F as ([e Se] & Fa & L & O).
      simpl. repeat split; auto. right. repeat split; auto.
      * exists e. destruct Hs; simpl; rewrite ?Se; auto.
      * destruct Hs; simpl; auto; constructor; auto; constructor.
Qed.

Lemma uploading_orphan s : uploading s -> swithin orphan_footprint s.
Proof.
  intros [id f|id|]; simpl; auto.
  - intros [[[] st]|e]; simpl; auto. split; auto. intros [j|e]; simpl; auto.
  - intros [j|e]; simpl; auto.
Qed.

Lemma advance_afterUploads_rejected e c :
  exists m,
    advance browser (afterUploads (Rejected e)) c
    = (Config.act (setLoading false)
         (Config.act (setError (Some ("Upload failed: " +:+ m)))
            (Config.act (console_error "Error uploading files:") c)),
       SDone).
Proof. eexists. reflexivity. Qed.

Lemma advance_afterUploads_resolved c :
  exists k,
    advance browser (afterUploads (Resolved tt)) c
    = (Config.issue import_workspaceService (Config.act (setError None) c),
       SAwait (Config.nextId c) import_workspaceService k)
    /\ forall o, within reload_tail_footprint (k o).
Proof.
  eexists. split; [reflexivity|].
  intros [[]|e]; simpl; repeat split; auto;
    try (intros [data|e']; simpl; repeat split; auto).
Qed.

Lemma deliver_single id a c s :
  Config.pool c = [s] ->
  deliver browser id a c
  = match resume browser id a (Config.with_pool [] c) s with
    | Some (c', s') =>
        Config.with_pool (List.filter is_pending [s'] ++ Config.pool c') c'
    | None => c
    end.
Proof.
  intros Hp. unfold deliver. rewrite Hp. simpl first_some.
  destruct (resume browser id a (Config.with_pool [] c) s) as [[c' s']|];
    reflexivity.
Qed.

Lemma fulfilled_app es1 es2 : fulfilled (es1 ++ es2) = fulfilled es1 + fulfilled es2.
Proof. unfold fulfilled. now rewrite List.filter_app, length_app. Qed.

(** While no upload has failed, a completion keeps the upload going,
    starts the reload when it was the last one, or is the first failure. *)
Lemma deliver_uploading files c es id a :
  Config.log c
  = [did (setLoading true); did (setError None)] ++ upload_requests 0 files
    ++ es ->
  phase_uploading files c es ->
  upload_phase files (deliver browser id a c).
Proof.
  intros Hlog (cs & Hpool & Hcs & Hlen & Hlt & Hd & Hcalm).
  rewrite (deliver_single _ _ _ _ Hpool). cbn [resume].
  destruct (first_some (resume browser id a (Config.with_pool [] c)) cs)
    as [[c1 cs']|] eqn:E.
  2: { exists es. split; [exact Hlog|]. left. exists cs. auto 10. }
  apply first_some_uploading in E; [|exact Hcs].
  destruct E as (Len & S1 & P1 & [C|F]).
  - destruct C as (U1 & Fa & es1 & L1 & Cm1 & D1). unfold join.
    destruct (settle_uploading cs' U1) as [[Es Dn]|[Es Dn]]; rewrite Es.
    + destruct (advance_afterUploads_resolved c1) as (k & -> & Hk).
      exists (es ++ es1 ++ [did (setError None);
                            issued (Config.nextId c1) import_workspaceService]).
      split.
      * simpl. rewrite L1. simpl. rewrite Hlog.
        rewrite <- !app_assoc. reflexivity.
      * right. right. exists (es ++ es1), (Config.nextId c1), [].
        rewrite <- !app_assoc. repeat split; auto.
        -- apply Forall_app. auto.
        -- rewrite fulfilled_app. lia.
        -- simpl. constructor; [exact Hk|]. rewrite P1. constructor.
    + exists (es ++ es1). split.
      * simpl. rewrite L1. simpl. rewrite Hlog.
        rewrite <- !app_assoc. reflexivity.
      * left. exists cs'. simpl. rewrite P1. simpl.
        repeat split; auto; try lia.
        -- rewrite fulfilled_app. lia.
        -- apply Forall_app. auto.
  - destruct F as ([e Se] & Fa & L1 & O). unfold join. rewrite Se.
    destruct (advance_afterUploads_rejected e
                (Config.park (List.filter is_pending cs') c1)) as (m & ->).
    exists (es ++ [settled id a; did (console_error "Error uploading files:");
                   did (setError (Some ("Upload failed: " +:+ m)));
                   did (setLoading false)]).
    split.
    + simpl. rewrite L1. simpl. rewrite Hlog. rewrite <- !app_assoc. reflexivity.
    + right. left. exists es, id, a, m, []. repeat split; auto.
      simpl. rewrite P1. simpl.
      eapply Forall_impl; [exact O|]. apply uploading_orphan.
Qed.

Lemma deliver_upload_phase files c id a :
  upload_phase files c -> upload_phase files (deliver browser id a c).
Proof.
  intros (es & Hlog & [U|[F|R]]).
  - eapply deliver_uploading; eauto.
  - destruct F as (pre & id0 & a0 & m & post & -> & Hpre & Fa & Hpost & Hpool).
    destruct (deliver_within browser orphan_footprint (fun _ _ => I) id a c Hpool)
      as [(es' & L & Hes' & _) Hpool'].
    exists (pre ++ [settled id0 a0; did (console_error "Error uploading files:");
                    did (setError (Some ("Upload failed: " +:+ m)));
                    did (setLoading false)] ++ post ++ es').
    split.
    + rewrite L, Hlog. rewrite <- !app_assoc. simpl. reflexivity.
    + right. left. exists pre, id0, a0, m, (post ++ es').
      repeat split; auto. apply Forall_app. auto.
  - destruct R as (pre & id0 & post & -> & Hpre & Hf & Hpost & Hpool).
    destruct (deliver_within browser reload_tail_footprint (fun _ _ => I)
                id a c Hpool)
      as [(es' & L & Hes' & _) Hpool'].
    exists (pre ++ [did (setError None); issued id0 import_workspaceService]
                ++ post ++ es').
    split.
    + rewrite L, Hlog. rewrite <- !app_assoc. simpl. reflexivity.
    + right. right. exists pre, id0, (post ++ es').
      repeat split; auto. apply Forall_app. auto.
Qed.

Lemma run_upload_phase files answers : forall c,
  upload_phase files c ->
  upload_phase files (run browser (completions answers) c).
Proof.
  induction answers as [|[id a] r IH]; intros c H; [exact H|].
  simpl. apply IH. apply deliver_upload_phase, H.
Qed.

(** The upload starts with the two setters and one request per file. *)
Lemma upload_starts files s :
  let c := step browser (Config.start s) (upload files) in
  upload_phase files c
  /\ match files with
     | [] => True
     | _ :: _ =>
         Config.log c
         = [did (setLoading true); did (setError None)]
           ++ upload_requests 0 files
     end.
Proof.
  unfold step, handler, spawn. rewrite handleFileUpload_eq.
  rewrite !advance_Act_eq, advance_All_eq.
  destruct (start_all_uploads files
              (Config.act (setError None)
                 (Config.act (setLoading true) (Config.start s))))
    as (c' & cs & -> & L & S & P & U & Len & D).
  simpl in L, P. unfold join.
  destruct (settle_uploading cs U) as [[Es Dn]|[Es Dn]]; rewrite Es.
  - assert (files = []) as ->.
    { destruct files; [reflexivity|]. simpl in Len. lia. }
    split; [|exact I].
    destruct (advance_afterUploads_resolved c') as (k & -> & Hk).
    exists [did (setError None); issued (Config.nextId c') import_workspaceService].
    split.
    + simpl. rewrite L. reflexivity.
    + right. right. exists [], (Config.nextId c'), []. simpl.
      repeat split; auto. rewrite P. simpl. auto.
  - split.
    + exists []. split.
      * simpl. rewrite L, app_nil_r. reflexivity.
      * left. exists cs. simpl. rewrite P. simpl. repeat split; auto; lia.
    + destruct files; [exact I|]. simpl. rewrite L. reflexivity.
Qed.

End UploadFacts.

(** *** Reading the log of an upload *)

Lemma filter_none {A} (f : A -> bool) (P : A -> Prop) l :
  (forall x, P x -> f x = false) -> Forall P l -> List.filter f l = [].
Proof.
  intros Hf. induction 1 as [|x r Hx Hr IH]; [reflexivity|].
  simpl. now rewrite (Hf x Hx).
Qed.

Lemma before_refresh_app a b :
  List.filter is_refresh_start a = [] ->
  before_refresh (a ++ b) = a ++ before_refresh b.
Proof.
  induction a as [|e a IH]; intros H; [reflexivity|].
  simpl in *. destruct (is_refresh_start e); [discriminate|].
  now rewrite IH.
Qed.

Lemma before_refresh_none a :
  List.filter is_refresh_start a = [] -> before_refresh a = a.
Proof.
  intros H. rewrite <- (app_nil_r a) at 1.
  rewrite before_refresh_app by exact H. apply app_nil_r.
Qed.

Lemma fetches_app a b : fetches (a ++ b) = fetches a ++ fetches b.
Proof. unfold fetches. now rewrite promises_app, List.filter_app. Qed.

Lemma fetches_none es : Forall no_fetch es -> fetches es = [].
Proof.
  induction 1 as [|e r He Hr IH]; [reflexivity|].
  change (e :: r) with ([e] ++ r). rewrite fetches_app, IH, app_nil_r.
  destruct e; try reflexivity. unfold fetches. simpl in *. now rewrite He.
Qed.

Lemma fetches_upload_requests files : forall id,
  fetches (upload_requests id files) = map upload_request files.
Proof.
  induction files as [|f r IH]; intros id; [reflexivity|].
  simpl. change (issued id (upload_request f) :: upload_requests (S id) r)
    with ([issued id (upload_request f)] ++ upload_requests (S id) r).
  rewrite fetches_app, IH. reflexivity.
Qed.

Lemma upload_requests_quiet (f : Entry -> bool) files :
  (forall id op, is_fetch op = true -> f (issued id op) = false) ->
  forall id, List.filter f (upload_requests id files) = [].
Proof.
  intros Hf. induction files as [|x r IH]; intros id; [reflexivity|].
  simpl. rewrite Hf by reflexivity. apply IH.
Qed.

Lemma calm_facts e :
  calm e ->
  is_refresh_start e = false /\ is_failed e = false
  /\ is_upload_failure e = false /\ no_fetch e.
Proof. destruct e as [| |id []|]; simpl; intuition. Qed.

Lemma orphan_facts e :
  orphan_footprint e ->
  is_refresh_start e = false /\ is_upload_failure e = false /\ no_fetch e.
Proof. destruct e as [| |id []|]; simpl; intuition. Qed.

Lemma reload_tail_facts e :
  reload_tail_footprint e ->
  is_refresh_start e = false /\ is_upload_failure e = false /\ no_fetch e.
Proof.
  destruct e as [[]| |id []|]; simpl; intros H; repeat split; auto;
    try contradiction; destruct H as [->| ->]; reflexivity.
Qed.

Ltac count_entries :=
  unfold refreshes, failed, fulfilled, aggregate_failures;
  rewrite ?List.filter_app, ?length_app.

Lemma upload_phase_observed files c :
  upload_phase files c ->
  let log := Config.log c in
  fetches log = map upload_request files
  /\ refreshes log
     = (if ((fulfilled (before_refresh log) =? length files)
            && (failed (before_refresh log) =? 0))%nat
        then 1 else 0)
  /\ aggregate_failures log
     = (if (failed (before_refresh log) =? 0)%nat then 0 else 1).
Proof.
  intros (es & Hlog & Hphase) log. subst log. rewrite Hlog. clear Hlog.
  set (head := [did (setLoading true); did (setError None)]).
  assert (Hq : forall f : Entry -> bool,
             (forall id op, is_fetch op = true -> f (issued id op) = false) ->
             List.filter f (upload_requests 0 files) = []).
  { intros f Hf. apply upload_requests_quiet, Hf. }
  assert (HR : List.filter is_refresh_start (upload_requests 0 files) = []).
  { apply Hq. intros id []; simpl; congruence. }
  assert (HF : List.filter is_failed (upload_requests 0 files) = []).
  { apply Hq. reflexivity. }
  assert (HU : List.filter is_fulfilled (upload_requests 0 files) = []).
  { apply Hq. reflexivity. }
  assert (HA : List.filter is_upload_failure (upload_requests 0 files) = []).
  { apply Hq. reflexivity. }
  assert (Hcalm : forall l, Forall calm l ->
            List.filter is_refresh_start l = [] /\ List.filter is_failed l = []
            /\ List.filter is_upload_failure l = [] /\ fetches l = []).
  { intros l Hl. repeat split.
    - eapply filter_none; [|exact Hl]. intros x Hx. apply calm_facts, Hx.
    - eapply filter_none; [|exact Hl]. intros x Hx. apply calm_facts, Hx.
    - eapply filter_none; [|exact Hl]. intros x Hx. apply calm_facts, Hx.
    - apply fetches_none. eapply Forall_impl; [exact Hl|].
      intros x Hx. apply calm_facts, Hx. }
  rewrite !fetches_app, fetches_upload_requests. change (fetches head) with (@nil Op).
  destruct Hphase as [U|[F|R]].
  - destruct U as (cs & _ & _ & Hlen & Hlt & Hd & Hc).
    destruct (Hcalm es Hc) as (C1 & C2 & C3 & C4).
    rewrite C4, app_nil_r. split; [reflexivity|].
    rewrite before_refresh_none
      by (rewrite !List.filter_app, HR, C1; reflexivity).
    count_entries. rewrite HR, HF, HU, HA, C1, C2, C3. simpl.
    fold (fulfilled es). rewrite <- Hd.
    destruct (Nat.eqb_spec (done_count cs) (length files)); [lia|]. auto.
  - destruct F as (pre & id & a & m & post & -> & Hpre & Fa & Hpost & _).
    destruct (Hcalm pre Hpre) as (C1 & C2 & C3 & C4).
    assert (P1 : List.filter is_refresh_start post = []).
    { eapply filter_none; [|exact Hpost]. intros x Hx. apply orphan_facts, Hx. }
    assert (P3 : List.filter is_upload_failure post = []).
    { eapply filter_none; [|exact Hpost]. intros x Hx. apply orphan_facts, Hx. }
    assert (P4 : fetches post = []).
    { apply fetches_none. eapply Forall_impl; [exact Hpost|].
      intros x Hx. apply orphan_facts, Hx. }
    rewrite !fetches_app, C4, P4, app_nil_r. split; [reflexivity|].
    rewrite before_refresh_none
      by (rewrite !List.filter_app, HR, C1, P1; reflexivity).
    count_entries. rewrite HR, HF, HA, C1, C2, C3, P1, P3. simpl.
    rewrite Fa. simpl. rewrite andb_false_r.
    replace (String.prefix "" ("" +:+ m)) with true
      by (destruct m; reflexivity).
    auto.
  - destruct R as (pre & id & post & -> & Hpre & Hf & Hpost & _).
    destruct (Hcalm pre Hpre) as (C1 & C2 & C3 & C4).
    assert (P1 : List.filter is_refresh_start post = []).
    { eapply filter_none; [|exact Hpost]. intros x Hx. apply reload_tail_facts, Hx. }
    assert (P3 : List.filter is_upload_failure post = []).
    { eapply filter_none; [|exact Hpost]. intros x Hx. apply reload_tail_facts, Hx. }
    assert (P4 : fetches post = []).
    { apply fetches_none. eapply Forall_impl; [exact Hpost|].
      intros x Hx. apply reload_tail_facts, Hx. }
    rewrite !fetches_app, C4, P4, app_nil_r. split; [reflexivity|].
    assert (B : before_refresh
                  (head ++ upload_requests 0 files
                   ++ pre ++ [did (setError None);
                              issued id import_workspaceService] ++ post)
                = head ++ upload_requests 0 files ++ pre ++ [did (setError None)]).
    { rewrite (before_refresh_app head) by reflexivity.
      rewrite (before_refresh_app (upload_requests 0 files)) by exact HR.
      rewrite (before_refresh_app pre) by exact C1. reflexivity. }
    rewrite B. count_entries. rewrite HR, HF, HU, HA, C1, C2, C3, P1, P3. simpl.
    fold (fulfilled pre). rewrite Nat.add_0_r, Hf, Nat.eqb_refl. auto.
Qed.

(** C7: an upload of one or more files issues one request per file, all
    of them in the first synchronous stretch, before any is awaited. However
    the answers arrive, no other request is ever made (nothing is rolled
    back); the reload is started once, exactly when every upload has run to
    its end and none has failed; and a failure of any upload is reported
    once, as one error, and then no reload is started. *)
Theorem upload_requests_then_one_reload
    (browser : forall c : SyncCall, Outcome (sret c))
    (s : State.t) (f : File.t) (fs : list File.t)
    (answers : list (nat * Answer)) :
  let files := f :: fs in
  let started := step browser (Config.start s) (upload files) in
  let log :=
    Config.log (run browser (upload files :: completions answers)
                  (Config.start s)) in
  Config.log started
  = [did (setLoading true); did (setError None)] ++ upload_requests 0 files
  /\ fetches log = map upload_request files
  /\ refreshes log
     = (if ((fulfilled (before_refresh log) =? length files)
            && (failed (before_refresh log) =? 0))%nat
        then 1 else 0)
  /\ aggregate_failures log
     = (if (failed (before_refresh log) =? 0)%nat then 0 else 1).
Proof.
  intros files started log.
  destruct (upload_starts browser files s) as [Hphase Hlog].
  split; [exact Hlog|].
  subst log. rewrite run_cons.
  apply upload_phase_observed, run_upload_phase, Hphase.
Qed.

(** ** The request throttle *)

Lemma issue_times_spaced policy d calls : forall last,
  Throttle.spaced d last (Throttle.issue_times policy d last calls).
Proof.
  induction calls as [|[now src] r IH]; intros last; simpl; [exact I|].
  unfold Throttle.gate. destruct last as [t0|].
  - destruct (Z.leb_spec (t0 + d) now).
    + simpl. split; [assumption|apply IH].
    + destruct policy; simpl.
      * apply IH.
      * split; [lia|apply IH].
  - simpl. split; [exact I|apply IH].
Qed.

Lemma spaced_after d t ts :
  (0 <= d)%Z -> Throttle.spaced d (Some t) ts ->
  Forall (fun x => (t + d <= x)%Z) ts.
Proof.
  intros Hd. revert t. induction ts as [|x r IH]; intros t H; [constructor|].
  destruct H as [H1 H2]. constructor; [exact H1|].
  eapply Forall_impl; [apply IH, H2|]. simpl. intros y Hy. lia.
Qed.

Lemma spaced_window d w ts : forall last,
  Throttle.spaced d last ts ->
  length (List.filter (Throttle.in_window d w) ts) <= 1.
Proof.
  destruct (Z.le_gt_cases d 0) as [Hd|Hd].
  - intros last _. rewrite (filter_none _ (fun _ => True)); [simpl; lia| |].
    + intros x _. unfold Throttle.in_window.
      destruct (Z.leb_spec w x), (Z.ltb_spec x (w + d)); simpl; auto. lia.
    + apply List.Forall_forall. auto.
  - induction ts as [|t r IH]; intros last H; [simpl; lia|].
    destruct H as [_ H]. simpl.
    destruct (Throttle.in_window d w t) eqn:E; [|eapply IH; eauto].
    rewrite (filter_none _ (fun x => (t + d <= x)%Z)); [simpl; lia| |].
    + intros x Hx. unfold Throttle.in_window in *.
      apply andb_true_iff in E. destruct E as [E1 E2].
      apply Z.leb_le in E1. apply Z.ltb_lt in E2.
      destruct (Z.leb_spec w x), (Z.ltb_spec x (w + d)); simpl; auto. lia.
    + apply spaced_after; [lia|exact H].
Qed.

(** C2: whatever makes the calls (panel open, timer, refresh button, a
    reload after an operation), whenever they come and whichever way a call
    inside the spacing is collapsed, the requests the throttle lets through
    are at least the minimum interval apart, so that at most one of them is
    issued in any one throttle window; in particular with the interval of
    three seconds. *)
Theorem throttle_one_request_per_window
    (policy : Throttle.Policy) (minInterval w : Z)
    (calls : list (Z * Throttle.Source)) :
  let issued := Throttle.issue_times policy minInterval None calls in
  Throttle.spaced minInterval None issued
  /\ length (List.filter (Throttle.in_window minInterval w) issued) <= 1
  /\ length (List.filter (Throttle.in_window Throttle.minimumInterval w)
               (Throttle.issue_times policy Throttle.minimumInterval None calls))
     <= 1.
Proof.
  intros issued. split; [apply issue_times_spaced|].
  split; eapply spaced_window; apply issue_times_spaced.
Qed.

(** ** Worked examples *)

Example toLowerCase_ex : Js.toLowerCase "Notes.MD" = "notes.md".
Proof. reflexivity. Qed.

Example endsWith_ex :
  Js.endsWith "notes.md" ".md" = true /\ Js.endsWith "md" ".md" = false.
Proof. split; reflexivity. Qed.

Example encodeURIComponent_ex :
  Js.encodeURIComponent "/a b/x.txt" = Some "%2Fa%20b%2Fx.txt"
  /\ Js.encodeURIComponent ("/a" +:+ unpaired +:+ "b") = None.
Proof. split; reflexivity. Qed.

Example isTextFile_ex :
  isTextFile "notes.md" = true /\ isTextFile "REPORT.JSON" = true
  /\ isTextFile "image.png" = false /\ isTextFile "archive.tar.gz" = false
  /\ isTextFile "py" = false.
Proof. repeat split; reflexivity. Qed.

(** A preview of [image.png] asks nothing; a preview of [notes.md] asks
    for its content once. *)
Example gate_ex :
  Config.log (run quiet_browser
                [click_node (mkFileNode "image.png" "/image.png" file None)]
                (Config.start State.initial))
  = [did (alert "Only text and markdown files can be previewed")]
  /\ network_calls
       (Config.log (run quiet_browser
                      [click_node (mkFileNode "notes.md" "/notes.md" file None);
                       completes 0 (responds (Build_Response true "OK"));
                       completes 1 (parses {| content := "# notes" |})]
                      (Config.start State.initial)))
     = [fetch "/api/workspace/file?path=%2Fnotes.md" GET None].
Proof. split; reflexivity. Qed.

(** With [/x.txt] selected, a delete of [/x.txt] that succeeds clears the
    selection and a delete of [/y.txt] keeps it. *)
Example delete_selected_ex :
  let sel := Some (Selected.mk "/x.txt" "x" "x.txt") in
  let staged p nm :=
    State.mk [] ∅ sel false None
      (Some (DeleteConfirmation.mk (mkFileNode nm p file None) true)) false in
  let after p nm :=
    Config.state
      (run quiet_browser
         (confirm_delete
          :: delete_completions
               (deleted "OK" (tree_listed {| tree := Some [] |})))
         (Config.start (staged p nm))) in
  State.selectedFile (after "/x.txt" "x.txt") = None
  /\ State.selectedFile (after "/y.txt" "y.txt") = sel.
Proof. split; reflexivity. Qed.

(** [/a/b] is expanded; a reload brings a tree without it: the path stays
    in the set, no error is shown, and the rows are those of the new tree. *)
Example stale_expansion_ex :
  let s := State.mk [] {["/a/b"]} None false None None false in
  let tree' := [mkFileNode "c" "/c" directory (Some [])] in
  let s' :=
    Config.state
      (run quiet_browser
         (refresh interval_tick
          :: refresh_completions 0 (tree_listed {| tree := Some tree' |}))
         (Config.start s)) in
  "/a/b" ∈ State.expandedFolders s' /\ State.error s' = None
  /\ renderFileTree (State.expandedFolders s') None (State.fileTree s') 0
     = [mkRow "/c" 0 false (Some ChevronRight) "c" false None].
Proof.
  simpl. split; [set_solver|]. split; [reflexivity|].
  unfold renderFileTree. simpl. rewrite decide_False; [reflexivity|].
  intros H. apply elem_of_singleton in H. discriminate.
Qed.

(** Three files: the second is refused. The error is reported once, no
    reload starts, and the other two uploads are left as they are. *)
Example upload_refused_ex :
  let files := [File.mk "x" "1"; File.mk "y" "2"; File.mk "z" "3"] in
  let c :=
    run quiet_browser
      [upload files;
       completes 1 (responds (Build_Response false "Bad"));
       completes 0 (responds (Build_Response true "OK"));
       completes 3 (parses {| content := "" |})]
      (Config.start State.initial) in
  State.error (Config.state c) = Some "Upload failed: Failed to upload y: Bad"
  /\ State.loading (Config.state c) = false
  /\ refreshes (Config.log c) = 0
  /\ fetches (Config.log c) = map upload_request files.
Proof. repeat split; reflexivity. Qed.

(** A burst of four calls inside three seconds: one request goes out when
    late calls are dropped; when they are deferred, the others follow three
    seconds apart. *)
Example throttle_burst_ex :
  let calls :=
    [(0, Throttle.from_trigger panel_open);
     (10, Throttle.from_trigger refresh_button);
     (500, Throttle.post_operation);
     (2999, Throttle.from_trigger interval_tick)]%Z in
  Throttle.issue_times Throttle.drop Throttle.minimumInterval None calls
  = [0%Z]
  /\ Throttle.issue_times Throttle.defer Throttle.minimumInterval None calls
     = [0; 3000; 6000; 9000]%Z.
Proof. split; reflexivity. Qed.

(** The panel itself does not space its calls: two triggers in a row give
    two requests for the tree. The spacing is the throttle's. *)
Example panel_reloads_on_every_trigger :
  network_calls
    (Config.log (run quiet_browser
                   [refresh panel_open; refresh refresh_button;
                    completes 0 loads; completes 1 loads]
                   (Config.start State.initial)))
  = [getWorkspaceTree; getWorkspaceTree].
Proof. reflexivity. Qed.

(** * Properties of the rest of the panel *)

(** ** One preview *)

(** X1: a preview that has passed the gate raises the loading flag and
    commits nothing while its request is in flight. When it has finished
    the flag is down; the selection is the file with its content when the
    body was read, and what it was before in every other case, with the
    notice of that case; the tree, the expansion set, the error and the
    staged delete are as they were. When the path holds a surrogate without
    its partner no request is made: the flag is down when the click returns,
    the selection stays and the error notice is shown. *)
Theorem preview_outcomes
    (browser : forall c : SyncCall, Outcome (sret c))
    (s : State.t) (f : FileNode) (r : PreviewResult)
    (Hfile : type f = file) (Htext : isTextFile (name f) = true) :
  let c1 := step browser (Config.start s) (click_node f) in
  let c := run browser (click_node f :: preview_completions 0 1 r)
             (Config.start s) in
  let sent := Js.isWellFormed (path f) in
  (State.loading (Config.state c1) = sent
   /\ length (Config.pool c1) = (if sent then 1 else 0)
   /\ State.selectedFile (Config.state c1) = State.selectedFile s)
  /\ Config.pool c = []
  /\ State.loading (Config.state c) = false
  /\ State.selectedFile (Config.state c)
     = (if sent then previewed f r (State.selectedFile s)
        else State.selectedFile s)
  /\ notices (Config.log c)
     = (if sent then preview_notice r else ["Error loading file"])
  /\ State.fileTree (Config.state c) = State.fileTree s
  /\ State.expandedFolders (Config.state c) = State.expandedFolders s
  /\ State.error (Config.state c) = State.error s
  /\ State.deleteConfirmation (Config.state c) = State.deleteConfirmation s.
Proof.
  destruct s as [t x sel l e d g].
  unfold run, fold_left, step, spawn, handler, handleFileClick,
    encodeURIComponent, Js.encodeURIComponent.
  simpl Config.state. simpl State.expandedFolders.
  rewrite Hfile, Htext.
  destruct (Js.isWellFormed (path f)); destruct r; simpl; auto 12.
Qed.

(** X1 at [notes.md], whose body is read. *)
Lemma preview_outcomes_witness :
  let f := mkFileNode "notes.md" "/notes.md" file None in
  let r := body_read "OK" "# notes" in
  let s := State.initial in
  let c1 := step quiet_browser (Config.start s) (click_node f) in
  let c := run quiet_browser (click_node f :: preview_completions 0 1 r)
             (Config.start s) in
  let sent := Js.isWellFormed (path f) in
  (State.loading (Config.state c1) = sent
   /\ length (Config.pool c1) = (if sent then 1 else 0)
   /\ State.selectedFile (Config.state c1) = State.selectedFile s)
  /\ Config.pool c = []
  /\ State.loading (Config.state c) = false
  /\ State.selectedFile (Config.state c)
     = (if sent then previewed f r (State.selectedFile s)
        else State.selectedFile s)
  /\ notices (Config.log c)
     = (if sent then preview_notice r else ["Error loading file"])
  /\ State.fileTree (Config.state c) = State.fileTree s
  /\ State.expandedFolders (Config.state c) = State.expandedFolders s
  /\ State.error (Config.state c) = State.error s
  /\ State.deleteConfirmation (Config.state c) = State.deleteConfirmation s.
Proof.
  apply (preview_outcomes quiet_browser State.initial
           (mkFileNode "notes.md" "/notes.md" file None)
           (body_read "OK" "# notes")); reflexivity.
Defined.

(** ** Previews and the shared loading flag *)

(** X2: the loading flag is one for all previews. With two previews in
    flight, the one that finishes first, however it goes, lowers the flag
    while the other is still suspended; and a viewer closed while a preview
    is in flight opens again when the preview resolves: closing cancels
    nothing. The two previews are both in flight exactly when the two paths
    are well-formed text; otherwise fewer than two requests are made. *)
Theorem loading_flag_is_shared
    (browser : forall c : SyncCall, Outcome (sret c))
    (s : State.t) (A B : FileNode) (rB : PreviewResult)
    (stA contentA : string)
    (HA : type A = file) (HB : type B = file)
    (HtA : isTextFile (name A) = true) (HtB : isTextFile (name B) = true) :
  let c := run browser (click_node A :: click_node B
                        :: preview_completions 1 2 rB) (Config.start s) in
  let closed :=
    run browser [click_node A; close_viewer;
                 completes 0 (responds (Build_Response true stA));
                 completes 1 (parses {| content := contentA |})]
      (Config.start s) in
  if Js.isWellFormed (path A) && Js.isWellFormed (path B) then
    (State.loading (Config.state c) = false /\ length (Config.pool c) = 1)
    /\ State.selectedFile (Config.state closed) = Some (preview_of A contentA)
    /\ fileViewer (Config.state closed) = Some (name A, contentA)
  else
    length (fetches (Config.log (run browser [click_node A; click_node B]
                                   (Config.start s))))
    < 2.
Proof.
  destruct s as [t x sel l e d g].
  unfold run, fold_left, step, spawn, handler, handleFileClick,
    encodeURIComponent, Js.encodeURIComponent.
  simpl Config.state. simpl State.expandedFolders.
  rewrite HA, HB, HtA, HtB.
  destruct (Js.isWellFormed (path A)), (Js.isWellFormed (path B));
    destruct rB; simpl; auto.
Qed.

(** X2 at [a.txt] and [b.md], the request for [b.md] being refused. *)
Lemma loading_flag_is_shared_witness :
  let A := mkFileNode "a.txt" "/a.txt" file None in
  let B := mkFileNode "b.md" "/b.md" file None in
  let s := State.initial in
  let c := run quiet_browser
             (click_node A :: click_node B
              :: preview_completions 1 2 (preview_refused "Not Found"))
             (Config.start s) in
  let closed :=
    run quiet_browser
      [click_node A; close_viewer;
       completes 0 (responds (Build_Response true "OK"));
       completes 1 (parses {| content := "a" |})]
      (Config.start s) in
  (State.loading (Config.state c) = false /\ length (Config.pool c) = 1)
  /\ State.selectedFile (Config.state closed) = Some (preview_of A "a")
  /\ fileViewer (Config.state closed) = Some (name A, "a").
Proof.
  apply (loading_flag_is_shared quiet_browser State.initial
           (mkFileNode "a.txt" "/a.txt" file None)
           (mkFileNode "b.md" "/b.md" file None)
           (preview_refused "Not Found") "OK" "a"); reflexivity.
Defined.

(** ** Overlapping reloads *)

(** X3: reloads carry no order. Of two reloads in flight, the tree of
    the one that is answered last stays, also when it was asked first: the
    answer to the second reload is shown, and then replaced by the older
    answer to the first. *)
Theorem last_answered_reload_wins
    (browser : forall c : SyncCall, Outcome (sret c))
    (s : State.t) (t1 t2 : Trigger) (first second : TreeData) :
  let asked := [refresh t1; refresh t2; completes 0 loads; completes 1 loads] in
  let c2 := run browser (asked ++ [completes 3 (lists second)]) (Config.start s) in
  let c := run browser (asked ++ [completes 3 (lists second);
                                  completes 2 (lists first)]) (Config.start s) in
  promises (Config.log c)
  = [import_workspaceService; import_workspaceService;
     getWorkspaceTree; getWorkspaceTree]
  /\ State.fileTree (Config.state c2) = default [] (tree second)
  /\ State.fileTree (Config.state c) = default [] (tree first)
  /\ Config.pool c = [].
Proof. destruct s as [t x sel l e d g]. simpl. auto. Qed.

(** ** The disabled features *)

(** With no delete staged, confirming does nothing at all: nothing is
    requested, nothing is logged, and no cell, the loading flag included,
    is written. *)
Lemma confirm_without_staging_is_noop
    (browser : forall c : SyncCall, Outcome (sret c))
    (t : list FileNode) (x : gset string) (sel : option Selected.t)
    (l : bool) (e : option string) (g : bool)
    (log : list Entry) (nextId : nat) (pool : list Susp) :
  let c := Config.mk (State.mk t x sel l e None g) log nextId pool in
  step browser c confirm_delete = c.
Proof.
  intros c. unfold step, spawn, handler, handleDeleteConfirm. simpl.
  unfold Config.park. simpl. now rewrite app_nil_r.
Qed.

Lemma loadWorkspaceTree_wired : within wired_footprint loadWorkspaceTree.
Proof.
  simpl. repeat split; auto; intros [x|e]; simpl; auto.
  repeat split; auto. intros [y|e]; simpl; auto.
Qed.

Lemma handleDownload_wired filePath fileName :
  within wired_footprint (handleDownload filePath fileName).
Proof.
  unfold handleDownload, encodeURIComponent.
  destruct (Js.encodeURIComponent filePath) as [component|]; simpl; auto.
  split; [auto|]. intros [[[] st]|e]; simpl; auto.
  split; [auto|]. intros [b|e]; simpl; auto.
  split; [auto|]. intros [u|e]; simpl; auto.
  split; [auto|]. split; [auto|]. intros [[]|e]; simpl; auto.
Qed.

Lemma handleFileClick_wired x f : within wired_footprint (handleFileClick x f).
Proof.
  unfold handleFileClick, encodeURIComponent.
  destruct (type f); [|simpl; auto].
  destruct (isTextFile (name f)); simpl; auto.
  destruct (Js.encodeURIComponent (path f)) as [component|]; simpl; auto.
  split; [auto|]. split; [auto|]. intros [[[] st]|e]; simpl; auto.
  split; [auto|]. intros [j|e]; simpl; auto.
Qed.

Lemma gesture_handler_wired s g : within wired_footprint (gesture_handler s g).
Proof.
  destruct g; cbn [gesture_handler]; try (simpl; auto; fail).
  - apply loadWorkspaceTree_wired.
  - apply handleFileClick_wired.
  - destruct (type f); [apply handleDownload_wired|exact I].
  - destruct (State.selectedFile s); [apply handleDownload_wired|exact I].
Qed.

Lemma gesture_run_wired browser gs : forall c,
  Forall (swithin wired_footprint) (Config.pool c) ->
  extends wired_footprint c (gesture_run browser gs c).
Proof.
  induction gs as [|g r IH]; intros c Hpool; simpl.
  - apply extends_refl.
  - assert (Hstep : extends wired_footprint c (gesture_step browser c g)
                    /\ Forall (swithin wired_footprint)
                         (Config.pool (gesture_step browser c g))).
    { destruct g;
        try (apply spawn_within;
             [apply (gesture_handler_wired (Config.state c))|exact Hpool]).
      apply deliver_within; [intros; exact I|exact Hpool]. }
    destruct Hstep as [S1 S2].
    eapply extends_trans; [exact S1|apply IH, S2].
Qed.

Lemma wired_promises es : Forall wired_footprint es -> Forall read_only (promises es).
Proof.
  induction 1 as [|e r He Hr IH]; [constructor|].
  destruct e as [| |id op|]; simpl; auto.
Qed.

(** X5: delete, upload and drag-and-drop are out of reach. Whatever the
    user does with the panel as it is rendered, in whatever order, and
    whatever the backend answers, the panel asks the backend for nothing but
    reads ([GET] without a body), stages no delete and never raises the drag
    flag; each of the four drag handlers consumes its event and does nothing
    else. *)
Theorem wired_gestures_only_read
    (browser : forall c : SyncCall, Outcome (sret c))
    (s : State.t) (gs : list Gesture) (e : DragEvent) :
  let c := gesture_run browser gs (Config.start s) in
  Forall read_only (promises (Config.log c))
  /\ State.deleteConfirmation (Config.state c) = State.deleteConfirmation s
  /\ State.isDragOver (Config.state c) = State.isDragOver s
  /\ Forall (fun h : DragEvent -> DragEvent * Async =>
               h e = ({| defaultPrevented := true; propagationStopped := true |},
                      Done))
       [handleDragEnter; handleDragLeave; handleDragOver; handleDrop].
Proof.
  intros c.
  destruct (gesture_run_wired browser gs (Config.start s)) as (es & L & Hes & St).
  { constructor. }
  simpl in L, St. fold c in L, St. rewrite L, St.
  split; [apply wired_promises, Hes|].
  split; [|split].
  - eapply (replay_keeps wired_footprint State.deleteConfirmation); eauto.
    intros [] [] Hf; simpl in *; tauto.
  - eapply (replay_keeps wired_footprint State.isDragOver); eauto.
    intros [] [] Hf; simpl in *; tauto.
  - repeat constructor.
Qed.

(** ** What the panel shows *)

Lemma panelContent_without_error nodes x sel l e d g hl :
  match e with Some (String _ _) => False | _ => True end ->
  panelContent (State.mk nodes x sel l e d g) hl = tree_or_empty x hl nodes.
Proof.
  intros He. unfold panelContent. simpl.
  destruct e as [[|]|]; try contradiction; destruct nodes; reflexivity.
Qed.

(** X6: what the panel shows when a reload is answered, whatever else is
    suspended beside it. After a rejection, of the import or of the request,
    it shows the error with its retry button in place of the tree, also when
    it holds a tree. After a tree was listed it shows that tree, or the
    empty workspace when the tree is empty, if no error is displayed at that
    moment; it goes on showing the error if one is, as when another reload
    has failed in the meantime. A retry clears the error at once, before its
    request is answered, so that the tree held at that moment is shown while
    the retry is in flight. A reload that runs alone therefore ends with the
    error, or with the new tree. *)
Theorem panel_content_after_reload
    (browser : forall c : SyncCall, Outcome (sret c))
    (s : State.t) (log : list Entry) (next : nat) (before after : list Susp)
    (id : nat) (t : Trigger) (data : TreeData) (e : Exn) (r : RefreshResult)
    (hl : option string) :
  let importing :=
    Config.mk s log next
      (before ++ SAwait id import_workspaceService afterImport :: after) in
  let requesting :=
    Config.mk s log next
      (before ++ SAwait id getWorkspaceTree afterTree :: after) in
  let listed := deliver browser id (lists data) requesting in
  let retried :=
    step browser (Config.mk s log next (before ++ after))
      (refresh retry_button) in
  let alone :=
    run browser (refresh t :: refresh_completions 0 r) (Config.start s) in
  (Forall (fun other => waits_for id other = false) before ->
   Forall (fun failed : Config.t =>
             panelContent (Config.state failed) hl
             = workspace_error "Error loading workspace")
     [deliver browser id (rejects e) importing;
      deliver browser id (rejects e) requesting]
   /\ panelContent (Config.state listed) hl
      = match State.error s with
        | Some (String c m) => workspace_error (String c m)
        | _ =>
            tree_or_empty (State.expandedFolders s) hl (default [] (tree data))
        end)
  /\ panelContent (Config.state retried) hl
     = tree_or_empty (State.expandedFolders s) hl (State.fileTree s)
  /\ panelContent (Config.state alone) hl
     = match r with
       | tree_listed data =>
           tree_or_empty (State.expandedFolders s) hl (default [] (tree data))
       | _ => workspace_error "Error loading workspace"
       end
  /\ panelContent (Config.state (step browser alone (refresh retry_button))) hl
     = tree_or_empty (State.expandedFolders s) hl (reloaded r (State.fileTree s))
  /\ length (Config.pool (step browser alone (refresh retry_button))) = 1.
Proof.
  intros importing requesting listed retried alone.
  subst listed retried importing requesting alone.
  split.
  - intros Hfresh.
    rewrite (answered_to_end browser s log next before after id
               getWorkspaceTree afterTree (lists data) (Resolved data)
               [did (setFileTree (default [] (tree data)))] Hfresh eq_refl)
      by runs_to_end.
    rewrite (answered_to_end browser s log next before after id
               getWorkspaceTree afterTree (rejects e) (Rejected e)
               [did (console_error "Error loading workspace:");
                did (setError (Some "Error loading workspace"))] Hfresh eq_refl)
      by runs_to_end.
    rewrite (answered_to_end browser s log next before after id
               import_workspaceService afterImport (rejects e) (Rejected e)
               [did (console_error "Error loading workspace:");
                did (setError (Some "Error loading workspace"))] Hfresh eq_refl)
      by runs_to_end.
    destruct s as [tr x sel l e0 d g]. cbn [Config.state].
    split; [repeat constructor|].
    simpl. destruct e0 as [[|c m]|]; try reflexivity;
      apply panelContent_without_error; exact I.
  - rewrite reload_invoked. destruct s as [tr x sel l e0 d g].
    cbn [Config.state].
    split; [apply panelContent_without_error; exact I|].
    destruct r; simpl; repeat split; auto;
      apply panelContent_without_error; exact I.
Qed.

(** X6 for a reload answered with a tree while the error of another reload
    is displayed. *)
Lemma panel_content_after_reload_witness :
  let docs := mkFileNode "docs" "/docs" directory None in
  let s := State.mk [] ∅ None false (Some "Error loading workspace") None false in
  let requesting :=
    Config.mk s [] 4 [SAwait 2 getWorkspaceTree afterTree] in
  Forall (fun other => waits_for 2 other = false) []
  /\ panelContent
       (Config.state (deliver quiet_browser 2 (lists {| tree := Some [docs] |})
                        requesting)) None
     = workspace_error "Error loading workspace".
Proof.
  split; [constructor|].
  exact (proj2 (proj1
    (panel_content_after_reload quiet_browser
       (State.mk [] ∅ None false (Some "Error loading workspace") None false)
       [] 4 [] [] 2 panel_open
       {| tree := Some [mkFileNode "docs" "/docs" directory None] |}
       Thrown (import_rejected Thrown) None) (List.Forall_nil _))).
Defined.

(** ** The rows of the tree *)

Lemma shown_renderNode_grows (S T : gset string) hl node : forall level,
  sublist (shown (renderNode S hl level node))
          (shown (renderNode (S ∪ T) hl level node)).
Proof.
  induction node as [nm p ty ch IH] using FileNode_nested_ind.
  intros level. simpl. apply sublist_skip.
  destruct ty; [apply sublist_nil_l|].
  destruct (decide (p ∈ S)) as [Hin|Hout]; [|apply sublist_nil_l].
  rewrite decide_True by set_solver.
  destruct ch as [nodes|]; [|apply sublist_nil_l].
  specialize (IH nodes eq_refl).
  induction IH as [|n r Hn Hr IHr]; simpl; [constructor|].
  apply sublist_app; [apply Hn|apply IHr].
Qed.

Lemma shown_renderNode_paths (S : gset string) hl node : forall level k,
  In k (shown (renderNode S hl level node)) -> k ∈ node_paths node.
Proof.
  induction node as [nm p ty ch IH] using FileNode_nested_ind.
  intros level k. simpl. intros [<-|Hk]; [set_solver|].
  destruct ty; [contradiction|].
  destruct (decide (p ∈ S)); [|contradiction].
  destruct ch as [nodes|]; [|contradiction].
  specialize (IH nodes eq_refl).
  apply elem_of_union. right. apply elem_of_union_list.
  apply in_flat_map in Hk. destruct Hk as (row & Hrow & Hk).
  apply in_map_iff in Hrow. destruct Hrow as (n & <- & Hn).
  exists (node_paths n). split.
  - apply list_elem_of_In, in_map, Hn.
  - rewrite List.Forall_forall in IH. eapply IH; eauto.
Qed.

(** X7: expanding more folders never hides a row: the rows shown under an
    expansion set are, in the same order, among the rows shown under any
    larger one. With nothing expanded the rows are the top-level nodes, and
    whatever is expanded every row is a node of the tree. *)
Theorem shown_rows_grow_with_expansion
    (S T : gset string) (hl : option string) (nodes : list FileNode)
    (level : nat) (k : string) :
  sublist (flat_map shown (renderFileTree S hl nodes level))
          (flat_map shown (renderFileTree (S ∪ T) hl nodes level))
  /\ flat_map shown (renderFileTree ∅ hl nodes level) = map path nodes
  /\ (In k (flat_map shown (renderFileTree S hl nodes level)) ->
      k ∈ tree_paths nodes).
Proof.
  unfold renderFileTree. split; [|split].
  - induction nodes as [|n r IH]; simpl; [constructor|].
    apply sublist_app; [apply shown_renderNode_grows|exact IH].
  - induction nodes as [|[nm p ty ch] r IH]; [reflexivity|].
    simpl. rewrite IH. destruct ty; [reflexivity|].
    destruct (decide (p ∈ (∅ : gset string))); [set_solver|reflexivity].
  - intros Hk. apply in_flat_map in Hk. destruct Hk as (row & Hrow & Hk).
    apply in_map_iff in Hrow. destruct Hrow as (n & <- & Hn).
    apply elem_of_union_list. exists (node_paths n). split.
    + apply list_elem_of_In, in_map, Hn.
    + eapply shown_renderNode_paths, Hk.
Qed.

(** ** Uploads at the edges *)

(** X8: an upload of no file asks for no upload. When the call of the
    handler returns, the two setters have run and nothing else: the handler
    has yielded at its [await]. [Promise.all] of nothing is fulfilled without
    an answer from the backend, so the handler goes on in the same turn of
    the event loop, and before any other event is handled the reload is
    started; whatever is answered afterwards there is one reload, no
    [fetch] and no upload failure. *)
Theorem upload_of_nothing_reloads
    (browser : forall c : SyncCall, Outcome (sret c))
    (s : State.t) (answers : list (nat * Answer)) :
  let at_return := returned browser (handleFileUpload []) (Config.start s) in
  let started := step browser (Config.start s) (upload []) in
  let log := Config.log (run browser (upload [] :: completions answers)
                           (Config.start s)) in
  Config.log at_return = [did (setLoading true); did (setError None)]
  /\ Config.log started
     = [did (setLoading true); did (setError None); did (setError None);
        issued 0 import_workspaceService]
  /\ fetches log = [] /\ refreshes log = 1 /\ aggregate_failures log = 0.
Proof.
  intros at_return started log. split; [reflexivity|]. split; [reflexivity|].
  subst log. rewrite run_cons. fold started.
  destruct (run_within browser reload_tail_footprint (fun _ _ => I)
              (completions answers) started) as [(es & L & Hes & _) _].
  { apply completions_handlers. }
  { subst started. simpl. constructor; [|constructor]. simpl.
    intros [[]|e]; simpl; repeat split; auto;
      try (intros [data|e']; simpl; repeat split; auto). }
  rewrite L.
  assert (P1 : List.filter is_refresh_start es = []).
  { eapply filter_none; [|exact Hes]. intros x Hx. apply reload_tail_facts, Hx. }
  assert (P3 : List.filter is_upload_failure es = []).
  { eapply filter_none; [|exact Hes]. intros x Hx. apply reload_tail_facts, Hx. }
  assert (P4 : fetches es = []).
  { apply fetches_none. eapply Forall_impl; [exact Hes|].
    intros x Hx. apply reload_tail_facts, Hx. }
  rewrite fetches_app, P4. count_entries. rewrite P1, P3. auto.
Qed.

(** X9: what an upload of one file leaves behind. A rejected request or
    body shows the message of the error thrown ("Unknown error" when what was
    thrown is no [Error]); a refused request shows the name of the file and
    the status text; in both cases the tree is not reloaded. An acknowledged
    upload reloads the tree, and when that reload fails the panel shows the
    reload's error although the file is on the server. The loading flag is
    down in every case. *)
Theorem upload_of_one_file_outcomes
    (browser : forall c : SyncCall, Outcome (sret c))
    (s : State.t) (f : File.t) (res : UploadResult) :
  let c := run browser (upload [f] :: upload_completions res) (Config.start s) in
  Config.pool c = []
  /\ State.loading (Config.state c) = false
  /\ State.error (Config.state c)
     = match res with
       | upload_rejected e | ack_rejected _ e =>
           Some ("Upload failed: " +:+ thrown_message e)
       | upload_refused st =>
           Some ("Upload failed: Failed to upload " +:+ File.name f +:+ ": "
                 +:+ st)
       | acknowledged _ _ (tree_listed _) => None
       | acknowledged _ _ _ => Some "Error loading workspace"
       end
  /\ State.fileTree (Config.state c)
     = match res with
       | acknowledged _ _ r => reloaded r (State.fileTree s)
       | _ => State.fileTree s
       end
  /\ refreshes (Config.log c)
     = match res with acknowledged _ _ _ => 1 | _ => 0 end.
Proof.
  destruct s as [t x sel l e d g].
  destruct res as [e0|st|st e0|st ack [e1|e1|data]]; simpl; auto 10;
    destruct e0; simpl; auto 10.
Qed.

(** * Properties of the tools configuration *)

Module ToolsConfigFacts.
Import ToolsConfig.

Lemma server_with_mcpServers cfg servers n :
  server (with_mcpServers cfg servers) n = servers !! n.
Proof. reflexivity. Qed.

Lemma server_update_eq n fv cfg :
  server (updateMcpServer n fv cfg) n
  = Some (with_field fv (default blank (server cfg n))).
Proof. unfold updateMcpServer. rewrite server_with_mcpServers. apply lookup_insert_eq. Qed.


Lemma server_add answer cfg n :
  server (addMcpServer answer cfg) n
  = match server cfg n with
    | Some srv => Some srv
    | None =>
        if decide (answer = Some n /\ accepted cfg n) then Some newServer
        else None
    end.
Proof.
  unfold addMcpServer. destruct answer as [[|c k]|].
  - destruct (server cfg n); [reflexivity|].
    destruct (decide _) as [[E [H _]]|_]; [|reflexivity].
    inversion E; subst. contradiction.
  - destruct (server cfg (String c k)) as [srv0|] eqn:E0.
    + destruct (server cfg n) eqn:E; [reflexivity|].
      destruct (decide _) as [[H _]|_]; [|reflexivity].
      inversion H; subst. congruence.
    + destruct (inherited (String c k) && bool_decide (is_Some (mcpServers cfg)))
        eqn:Ei.
      * apply andb_prop in Ei as [Ei Es]. apply bool_decide_eq_true in Es.
        destruct (server cfg n); [reflexivity|].
        destruct (decide _) as [[H [_ Hi]]|_]; [|reflexivity].
        inversion H; subst. rewrite (Hi Ei) in Es. now destruct Es.
      * rewrite server_with_mcpServers.
        destruct (decide (String c k = n)) as [<-|Hne].
        -- rewrite lookup_insert_eq, E0.
           destruct (decide _) as [_|Hn]; [reflexivity|].
           exfalso. apply Hn. split; [reflexivity|]. split; [discriminate|].
           intros Hi. rewrite Hi in Ei. simpl in Ei.
           apply bool_decide_eq_false in Ei.
           destruct (mcpServers cfg); [|reflexivity].
           exfalso. apply Ei. eauto.
        -- rewrite lookup_insert_ne by exact Hne. fold (server cfg n).
           destruct (server cfg n); [reflexivity|].
           destruct (decide _) as [[H _]|_]; [|reflexivity].
           inversion H; subst. contradiction.
  - destruct (server cfg n); [reflexivity|].
    destruct (decide _) as [[H _]|_]; [discriminate H|reflexivity].
Qed.

Lemma server_remove n cfg m :
  server (removeMcpServer n cfg) m
  = if decide (m = n) then None else server cfg m.
Proof.
  unfold removeMcpServer. rewrite server_with_mcpServers.
  destruct (decide (m = n)) as [->|Hne].
  - apply lookup_delete_eq.
  - now rewrite lookup_delete_ne.
Qed.

(** X10: [addMcpServer] never overwrites and never loses a server. After
    it, a name that had a server has the same server; a name that had none
    has the new server with its defaults when it is the name typed and is
    accepted, and still none otherwise. A name is accepted when it is not
    empty and is not one that every object inherits, such as [toString],
    unless the configuration has no object of servers yet. A cancelled
    dialog, an empty name and an inherited name leave the configuration as
    it was, and the services, the apps and their tools are never
    touched. *)
Theorem addMcpServer_lookup (answer : option string) (cfg : ToolsConfigData)
    (n : string) :
  server (addMcpServer answer cfg) n
  = match server cfg n with
    | Some srv => Some srv
    | None =>
        if decide (answer = Some n /\ accepted cfg n) then Some newServer
        else None
    end
  /\ addMcpServer None cfg = cfg /\ addMcpServer (Some "") cfg = cfg
  /\ addMcpServer (Some "toString") (with_mcpServers cfg ∅)
     = with_mcpServers cfg ∅
  /\ server (addMcpServer (Some "toString")
               (mkConfig (services cfg) None (apps cfg) (appTools cfg)))
       "toString" = Some newServer
  /\ services (addMcpServer answer cfg) = services cfg
  /\ apps (addMcpServer answer cfg) = apps cfg
  /\ appTools (addMcpServer answer cfg) = appTools cfg.
Proof.
  split; [apply server_add|].
  do 4 (split; [reflexivity|]).
  unfold addMcpServer.
  repeat split; destruct answer as [[|c k]|]; try reflexivity;
    destruct (server cfg (String c k)); try reflexivity;
    destruct (inherited _ && _); reflexivity.
Qed.

(** X11: removing a server removes that one and no other: afterwards the
    name has no server and every other name has the server it had. Removing
    the server that was just added under a free name gives back the servers
    there were. *)
Theorem removeMcpServer_after_add (cfg : ToolsConfigData) (n m : string) :
  server (removeMcpServer n cfg) m
  = (if decide (m = n) then None else server cfg m)
  /\ (server cfg n = None ->
      server (removeMcpServer n (addMcpServer (Some n) cfg)) m = server cfg m)
  /\ (server cfg n = None -> accepted cfg n ->
      server (addMcpServer (Some n) cfg) n = Some newServer)
  /\ services (removeMcpServer n cfg) = services cfg
  /\ apps (removeMcpServer n cfg) = apps cfg
  /\ appTools (removeMcpServer n cfg) = appTools cfg.
Proof.
  split; [apply server_remove|].
  split; [|split; [|repeat split]].
  - intros Hfree. rewrite server_remove.
    destruct (decide (m = n)) as [->|Hne]; [now rewrite Hfree|].
    rewrite server_add. destruct (server cfg m); [reflexivity|].
    rewrite decide_False; [reflexivity|]. intros [H _]. inversion H. congruence.
  - intros Hfree Hname. rewrite server_add, Hfree.
    now rewrite decide_True by auto.
Qed.

(** X11 for the name [files], added to a configuration that has a server
    [search] and removed again. *)
Lemma removeMcpServer_after_add_witness :
  let cfg := mkConfig None (Some {["search" := newServer]}) None None in
  server (removeMcpServer "search" cfg) "search" = None
  /\ server (removeMcpServer "files" (addMcpServer (Some "files") cfg)) "search"
     = Some newServer
  /\ server (addMcpServer (Some "files") cfg) "files" = Some newServer.
Proof.
  pose proof (removeMcpServer_after_add
                (mkConfig None (Some {["search" := newServer]}) None None)
                "search" "search") as (H1 & _).
  pose proof (removeMcpServer_after_add
                (mkConfig None (Some {["search" := newServer]}) None None)
                "files" "search") as (_ & H2 & _).
  pose proof (removeMcpServer_after_add
                (mkConfig None (Some {["search" := newServer]}) None None)
                "files" "files") as (_ & _ & H3 & _).
  split; [rewrite H1; now rewrite decide_True|].
  split; [rewrite H2; reflexivity|].
  apply H3; [reflexivity|split; [discriminate|intros H; discriminate H]].
Defined.






Lemma currentArgs_update n v cfg :
  currentArgs (updateMcpServer n (args_are v) cfg) n = v.
Proof. unfold currentArgs. now rewrite server_update_eq. Qed.

Lemma filter_indexed_past {A} (l : list A) : forall i index,
  index < i ->
  filter_indexed (fun _ j => negb (Nat.eqb j index)) i l = l.
Proof.
  induction l as [|x r IH]; intros i index H; [reflexivity|].
  simpl. destruct (Nat.eqb_spec i index); [lia|]. simpl. f_equal.
  apply IH. lia.
Qed.

(** [filter((_, i) => i !== index)] takes out the element at [index]. *)
Lemma filter_indexed_delete {A} (l : list A) : forall i index,
  filter_indexed (fun _ j => negb (Nat.eqb j (i + index))) i l = delete index l.
Proof.
  induction l as [|x r IH]; intros i index; [reflexivity|].
  simpl. destruct index as [|index].
  - rewrite Nat.add_0_r, Nat.eqb_refl. simpl. apply filter_indexed_past. lia.
  - destruct (Nat.eqb_spec i (i + S index)); [lia|]. simpl. f_equal.
    replace (i + S index) with (S i + index) by lia. apply IH.
Qed.

(** X13: the arguments of a server. [addArg] appends an empty argument;
    [removeArg] takes out the argument at the index and keeps the others in
    order, and takes out nothing when the index is past the end; removing
    the argument just added gives the arguments back. Both write the list
    into the server, so that on a name with no server they create one that
    holds the arguments alone. *)
Theorem args_add_remove (cfg : ToolsConfigData) (n : string) (index : nat) :
  let old := currentArgs cfg n in
  currentArgs (addArg n cfg) n = old ++ [""]
  /\ currentArgs (removeArg n index cfg) n = delete index old
  /\ (if Nat.leb (length old) index
      then currentArgs (removeArg n index cfg) n = old
      else length (currentArgs (removeArg n index cfg) n) = length old - 1)
  /\ currentArgs (removeArg n (length old) (addArg n cfg)) n = old
  /\ server (removeArg n index cfg) n
     = Some (with_field (args_are (delete index old))
               (default blank (server cfg n)))
  /\ server (addArg n cfg) n
     = Some (with_field (args_are (old ++ [""]))
               (default blank (server cfg n))).
Proof.
  intros old.
  assert (Hrem : forall i c, currentArgs (removeArg n i c) n
                             = delete i (currentArgs c n)).
  { intros i c. unfold removeArg. rewrite currentArgs_update.
    apply (filter_indexed_delete _ 0). }
  split; [unfold addArg; apply currentArgs_update|].
  split; [apply Hrem|]. split; [|split; [|split]].
  - rewrite Hrem. fold old. destruct (Nat.leb_spec (length old) index).
    + rewrite delete_take_drop, take_ge, drop_ge by lia. apply app_nil_r.
    + rewrite length_delete; [reflexivity|]. now apply lookup_lt_is_Some.
  - rewrite Hrem. unfold addArg. rewrite currentArgs_update. fold old.
    rewrite delete_middle. apply app_nil_r.
  - unfold removeArg. rewrite server_update_eq. fold old.
    do 3 f_equal. apply (filter_indexed_delete _ 0).
  - unfold addArg. apply server_update_eq.
Qed.

Lemma currentEnv_update n v cfg :
  currentEnv (updateMcpServer n (env_is v) cfg) n = v.
Proof. unfold currentEnv. now rewrite server_update_eq. Qed.

(** X14: the environment of a server. [addEnvVar] sets the variable typed
    to the empty string, also when the variable exists: its value is lost;
    the other variables keep theirs. A cancelled dialog and an empty name
    change nothing. Removing the variable just added leaves the environment
    without it, which is the environment there was when the name was free;
    and [updateEnvVar] on a variable that was removed adds it again. *)
Theorem env_add_update_remove (cfg : ToolsConfigData) (n : string)
    (c : ascii) (k other value : string) :
  let key := String c k in
  let before := currentEnv cfg n in
  currentEnv (addEnvVar (Some key) n cfg) n !! other
  = (if decide (other = key) then Some "" else before !! other)
  /\ addEnvVar None n cfg = cfg /\ addEnvVar (Some "") n cfg = cfg
  /\ currentEnv (removeEnvVar n key (addEnvVar (Some key) n cfg)) n
     = delete key before
  /\ match before !! key with
     | None =>
         currentEnv (removeEnvVar n key (addEnvVar (Some key) n cfg)) n = before
     | Some _ => True
     end
  /\ currentEnv (updateEnvVar n key value (removeEnvVar n key cfg)) n
     = <[key := value]> before.
Proof.
  intros key before.
  assert (Hadd : currentEnv (addEnvVar (Some key) n cfg) n = <[key := ""]> before).
  { unfold addEnvVar, key. apply currentEnv_update. }
  assert (Hrem : forall cfg', currentEnv (removeEnvVar n key cfg') n
                              = delete key (currentEnv cfg' n)).
  { intros cfg'. unfold removeEnvVar. apply currentEnv_update. }
  assert (Hround : currentEnv (removeEnvVar n key (addEnvVar (Some key) n cfg)) n
                   = delete key before).
  { rewrite Hrem, Hadd. apply delete_insert_eq. }
  split.
  { rewrite Hadd. destruct (decide (other = key)) as [->|Hne].
    - apply lookup_insert_eq.
    - now rewrite lookup_insert_ne. }
  split; [reflexivity|]. split; [reflexivity|]. split; [exact Hround|].
  split.
  - destruct (before !! key) eqn:E; [exact I|].
    rewrite Hround. now apply delete_id.
  - unfold updateEnvVar. rewrite currentEnv_update, Hrem.
    fold before. apply insert_delete_eq.
Qed.

End ToolsConfigFacts.

(** * Properties of the left sidebar and of the shell *)

(** X15: the label of a conversation by its age, the time from its
    timestamp to now. Under two minutes, and for a timestamp in the future,
    it is "1 minute ago"; then the whole minutes up to an hour, "1 hour ago"
    in the second hour, the whole hours up to a day; from one day to two it
    is "now"; then the whole days, from 2 to 6; and from a week on, the date
    as the browser writes it. A timestamp further from the epoch than a date
    can be gives "Invalid Date". *)
Theorem formatDate_by_age (toLocaleDateString : Z -> string) (now timestamp : Z)
    (Hnow : LeftSidebar.timeValue now = Some now) :
  let age := (now - timestamp)%Z in
  LeftSidebar.formatDate toLocaleDateString now timestamp
  = if (LeftSidebar.maxTime <? Z.abs timestamp)%Z then "Invalid Date"
    else if (age <? 120000)%Z then "1 minute ago"
    else if (age <? 3600000)%Z then
      pretty.pretty (age / 60000)%Z +:+ " minutes ago"
    else if (age <? 7200000)%Z then "1 hour ago"
    else if (age <? 86400000)%Z then
      pretty.pretty (age / 3600000)%Z +:+ " hours ago"
    else if (age <? 172800000)%Z then "now"
    else if (age <? 604800000)%Z then
      pretty.pretty (age / 86400000)%Z +:+ " days ago"
    else toLocaleDateString timestamp.
Proof.
  intros age. unfold LeftSidebar.formatDate. unfold LeftSidebar.timeValue at 1.
  destruct (Z.leb_spec (Z.abs timestamp) LeftSidebar.maxTime) as [Hin|Hout];
    destruct (Z.ltb_spec LeftSidebar.maxTime (Z.abs timestamp));
    try lia; [|reflexivity].
  cbv zeta. fold age.
  change (1000 * 60)%Z with 60000%Z.
  change (60000 * 60)%Z with 3600000%Z.
  change (3600000 * 24)%Z with 86400000%Z.
  remember (age / 60000)%Z as m eqn:Em.
  remember (age / 3600000)%Z as h eqn:Eh.
  remember (age / 86400000)%Z as d eqn:Ed.
  assert (Hm : (60000 * m <= age < 60000 * m + 60000)%Z).
  { subst m. pose proof (Z.div_mod age 60000).
    pose proof (Z.mod_pos_bound age 60000). lia. }
  assert (Hh : (3600000 * h <= age < 3600000 * h + 3600000)%Z).
  { subst h. pose proof (Z.div_mod age 3600000).
    pose proof (Z.mod_pos_bound age 3600000). lia. }
  assert (Hd : (86400000 * d <= age < 86400000 * d + 86400000)%Z).
  { subst d. pose proof (Z.div_mod age 86400000).
    pose proof (Z.mod_pos_bound age 86400000). lia. }
  clear Em Eh Ed.
  destruct (Z.ltb_spec m 1); [destruct (Z.ltb_spec age 120000); [reflexivity|lia]|].
  destruct (Z.ltb_spec m 60).
  - destruct (Z.eqb_spec m 1) as [->|].
    + destruct (Z.ltb_spec age 120000); [reflexivity|lia].
    + destruct (Z.ltb_spec age 120000); [lia|].
      destruct (Z.ltb_spec age 3600000); [reflexivity|lia].
  - destruct (Z.ltb_spec age 120000); [lia|].
    destruct (Z.ltb_spec age 3600000); [lia|].
    destruct (Z.ltb_spec h 24).
    + destruct (Z.eqb_spec h 1) as [->|].
      * destruct (Z.ltb_spec age 7200000); [reflexivity|lia].
      * destruct (Z.ltb_spec age 7200000); [lia|].
        destruct (Z.ltb_spec age 86400000); [reflexivity|lia].
    + destruct (Z.ltb_spec age 7200000); [lia|].
      destruct (Z.ltb_spec age 86400000); [lia|].
      destruct (Z.eqb_spec d 1).
      * destruct (Z.ltb_spec age 172800000); [reflexivity|lia].
      * destruct (Z.ltb_spec age 172800000); [lia|].
        destruct (Z.ltb_spec d 7);
          destruct (Z.ltb_spec age 604800000); try reflexivity; lia.
Qed.

(** X15 for a conversation of ninety seconds ago, and for one whose
    timestamp is no date. *)
Lemma formatDate_by_age_witness :
  LeftSidebar.formatDate (fun _ => "1/1/2026") 1767225690000 1767225600000
  = (if (LeftSidebar.maxTime <? Z.abs 1767225600000)%Z then "Invalid Date"
     else "1 minute ago")
  /\ LeftSidebar.formatDate (fun _ => "1/1/2026") 1767225690000
       8640000000000001
     = "Invalid Date".
Proof.
  split.
  - exact (formatDate_by_age (fun _ => "1/1/2026") 1767225690000 1767225600000
             eq_refl).
  - exact (formatDate_by_age (fun _ => "1/1/2026") 1767225690000
             8640000000000001 eq_refl).
Defined.


Lemma deleted_ids id0 l k :
  In k (map LeftSidebar.id (LeftSidebar.deleted id0 l))
  <-> In k (map LeftSidebar.id l) /\ k <> id0.
Proof.
  unfold LeftSidebar.deleted. rewrite !in_map_iff. split.
  - intros (c & <- & Hc). apply List.filter_In in Hc as [Hin Hne].
    split; [now exists c|].
    apply negb_true_iff, String.eqb_neq in Hne. exact Hne.
  - intros [(c & <- & Hin) Hne]. exists c. split; [reflexivity|].
    apply List.filter_In. split; [exact Hin|].
    now apply negb_true_iff, String.eqb_neq.
Qed.

(** X21: a delete answers from the render it was clicked in. When a
    conversation is created between the click on a delete button and the
    answer to its request, the answer writes the list of before without the
    deleted conversation: the new conversation, which was listed, is gone,
    and it is still the selected one unless the deleted conversation was
    selected at the click. A delete clicked after the creation keeps the new
    conversation, and a delete that was refused changes nothing. *)
Theorem delete_answers_from_its_render
    (render : LeftSidebar.Sidebar) (id0 : string)
    (newConv : LeftSidebar.Conversation)
    (Hother : LeftSidebar.id newConv <> id0)
    (Hfresh : ~ In (LeftSidebar.id newConv)
                (map LeftSidebar.id (LeftSidebar.conversations render))) :
  let s := LeftSidebar.created newConv render in
  let s' := LeftSidebar.deleteConversation render id0 true s in
  In newConv (LeftSidebar.conversations s)
  /\ (forall k, In k (map LeftSidebar.id (LeftSidebar.conversations s'))
              <-> In k (map LeftSidebar.id (LeftSidebar.conversations render))
                  /\ k <> id0)
  /\ ~ In (LeftSidebar.id newConv)
        (map LeftSidebar.id (LeftSidebar.conversations s'))
  /\ LeftSidebar.selectedConversation s'
     = (if decide (LeftSidebar.selectedConversation render = Some id0)
        then None else Some (LeftSidebar.id newConv))
  /\ LeftSidebar.conversations (LeftSidebar.deleteConversation s id0 true s)
     = newConv :: LeftSidebar.deleted id0 (LeftSidebar.conversations render)
  /\ LeftSidebar.deleteConversation render id0 false s = s.
Proof.
  intros s s'. split; [now left|].
  split; [intros k; apply deleted_ids|].
  split; [intros H; apply deleted_ids in H as [H _]; now apply Hfresh|].
  split; [reflexivity|]. split; [|reflexivity].
  unfold s, LeftSidebar.deleteConversation, LeftSidebar.created,
    LeftSidebar.added, LeftSidebar.deleted.
  simpl. apply String.eqb_neq in Hother. now rewrite Hother.
Qed.

(** X21 for a conversation created while the delete of the only other one
    is in flight. *)
Lemma delete_answers_from_its_render_witness :
  let old := LeftSidebar.mkConversation "conv-1" "first" 1 None in
  let newConv := LeftSidebar.newConversation 2 2 None in
  let render := LeftSidebar.mkSidebar [old] (Some "conv-1") in
  let s' := LeftSidebar.deleteConversation render "conv-1" true
              (LeftSidebar.created newConv render) in
  LeftSidebar.conversations s' = []
  /\ LeftSidebar.selectedConversation s' = None
  /\ ~ In (LeftSidebar.id newConv)
        (map LeftSidebar.id (LeftSidebar.conversations s')).
Proof.
  split; [reflexivity|]. split; [reflexivity|].
  apply (delete_answers_from_its_render
           (LeftSidebar.mkSidebar
              [LeftSidebar.mkConversation "conv-1" "first" 1 None]
              (Some "conv-1"))
           "conv-1" (LeftSidebar.newConversation 2 2 None)).
  - vm_compute. discriminate.
  - vm_compute. intros [H|[]]. discriminate H.
Defined.

(** X17: the title made of a message is at most 53 units long: a message
    of up to 50 units is its own title, a longer one gives its first 50
    units and three full stops. The title starts as the message does, and
    the title of a title is that title. *)
Theorem messageTitle_bounded {unit16 : Type} (dot : unit16)
    (message : list unit16) :
  let title := AppLayout.messageTitle dot message in
  length title <= 53
  /\ (if Nat.leb (length message) 50 then title = message
      else title = take 50 message ++ [dot; dot; dot] /\ length title = 53)
  /\ take 50 title = take 50 message
  /\ AppLayout.messageTitle dot title = title.
Proof.
  intros title. subst title. unfold AppLayout.messageTitle.
  destruct (Nat.ltb_spec 50 (length message)) as [Hlong|Hshort].
  - assert (Hlen : length (take 50 message ++ [dot; dot; dot]) = 53).
    { rewrite length_app, length_take_le by lia. reflexivity. }
    rewrite Hlen.
    destruct (Nat.leb_spec (length message) 50); [lia|].
    split; [lia|]. split; [auto|]. split.
    + rewrite take_app_le by (rewrite length_take_le; lia).
      rewrite take_take. f_equal.
    + simpl. rewrite take_app_le by (rewrite length_take_le; lia).
      rewrite take_take. reflexivity.
  - destruct (Nat.leb_spec (length message) 50); [|lia].
    destruct (Nat.ltb_spec 50 (length message)); [lia|].
    repeat split; auto.
Qed.

Module PollingFacts.
Import AppLayout.

Lemma filter_out_only i :
  List.filter (fun j => negb (Nat.eqb j i)) [i] = [].
Proof. simpl. now rewrite Nat.eqb_refl. Qed.

(** A render brings the polling in step, whatever the panel was shown
    before. *)
Lemma render_in_step h :
  match mounted h with
  | Some e =>
      if seen e
      then exists i, interval e = Some i /\ live h = [i] /\ i < nextInterval h
      else interval e = None /\ live h = []
  | None => live h = []
  end ->
  in_step (render h).
Proof.
  intros H. destruct h as [op st [[sn iv]|] lv nx cl]; simpl in *.
  - destruct sn.
    + destruct H as (i & -> & -> & Hi).
      destruct st, op; unfold in_step, render, cleanup, effect; simpl;
        rewrite ?Nat.eqb_refl; simpl; repeat split; eauto.
    + destruct H as [-> ->].
      destruct st, op; unfold in_step, render, cleanup, effect; simpl;
        repeat split; eauto.
  - subst lv.
    destruct st, op; unfold in_step, render, cleanup, effect; simpl;
      repeat split; eauto.
Qed.

Lemma in_step_shape h :
  in_step h ->
  match mounted h with
  | Some e =>
      if seen e
      then exists i, interval e = Some i /\ live h = [i] /\ i < nextInterval h
      else interval e = None /\ live h = []
  | None => live h = []
  end.
Proof.
  unfold in_step. destruct (mounted h) as [e|]; [|tauto].
  intros (_ & -> & H). exact H.
Qed.

Lemma react_in_step h i : in_step h -> in_step (react h i).
Proof.
  intros H. pose proof (in_step_shape h H) as Hs.
  destruct i as [| |b|j]; simpl;
    try (apply render_in_step; destruct h; exact Hs).
  destruct (existsb (Nat.eqb j) (live h)); [|exact H].
  unfold in_step in *. destruct h as [op st [e|] lv nx cl]; exact H.
Qed.

Lemma boot_in_step advanced : in_step (boot advanced).
Proof. unfold boot. apply render_in_step. reflexivity. Qed.

(** X18: the polling never leaks and never doubles. However the panel is
    opened, closed, opened again by the file autocomplete, mounted and
    unmounted, there is one live interval when the panel is mounted and open
    and none otherwise; opening a panel that is open changes nothing, so the
    interval is not set twice; and while the panel is closed or unmounted no
    interval reloads the tree, the cleared ones included. *)
Theorem polling_in_step_with_panel (advanced : bool) (inputs : list Input)
    (i : nat) :
  let h := fold_left react inputs (boot advanced) in
  in_step h
  /\ length (live h)
     = (if hasStartedChat h && workspacePanelOpen h then 1 else 0)
  /\ (if workspacePanelOpen h then react h autocomplete_opens = h
      else if hasStartedChat h
           then length (live (react h autocomplete_opens)) = 1
           else True)
  /\ (if hasStartedChat h && workspacePanelOpen h then True
      else react h (interval_fires i) = h).
Proof.
  intros h.
  assert (H : in_step h).
  { subst h. generalize (boot_in_step advanced). generalize (boot advanced).
    induction inputs as [|x r IH]; intros h0 H0; simpl; [exact H0|].
    apply IH, react_in_step, H0. }
  split; [exact H|].
  clearbody h. unfold in_step in H.
  destruct h as [op st [[sn iv]|] lv nx cl]; simpl in *.
  - destruct H as (-> & -> & H). destruct op; simpl in *.
    + destruct H as (j & -> & -> & Hj). repeat split; auto.
    + destruct H as [-> ->]. repeat split; auto.
  - destruct H as [-> ->]. destruct op; simpl; repeat split; auto.
Qed.

End PollingFacts.

(** * More properties of the panel *)

Lemma uploads_unstaged files :
  Forall (within unstaged_footprint) (map uploadOne files).
Proof.
  apply Forall_map, List.Forall_forall. intros f _. simpl.
  split; [intros _; discriminate|].
  intros [[[] st]|e]; simpl; auto. split; auto. intros [j|e]; simpl; auto.
Qed.

Lemma handler_unstaged s ev :
  State.deleteConfirmation s = None -> within unstaged_footprint (handler s ev).
Proof.
  intros Hs. destruct ev; cbn [handler].
  - simpl. repeat split; auto; intros [x|e]; simpl; auto.
    repeat split; auto. intros [y|e]; simpl; auto.
  - unfold handleFileClick, encodeURIComponent.
    destruct (type f); [|simpl; auto].
    destruct (isTextFile (name f)); simpl; auto.
    destruct (Js.encodeURIComponent (path f)) as [component|]; simpl; auto.
    split; [auto|]. split; [intros _; discriminate|].
    intros [[[] st]|e]; simpl; auto. split; [auto|]. intros [j|e]; simpl; auto.
  - unfold handleDownload, encodeURIComponent.
    destruct (Js.encodeURIComponent filePath) as [component|]; simpl; auto.
    split; [intros _; discriminate|]. intros [[[] st]|e]; simpl; auto.
    split; [auto|]. intros [b|e]; simpl; auto.
    split; [auto|]. intros [u|e]; simpl; auto.
    split; [auto|]. split; [auto|]. intros [[]|e]; simpl; auto.
  - simpl. auto.
  - unfold handleDeleteClick. exact I.
  - unfold handleDeleteConfirm. rewrite Hs. exact I.
  - simpl. auto.
  - rewrite handleFileUpload_eq. split; [exact I|]. split; [exact I|].
    apply within_All. split; [apply uploads_unstaged|].
    intros [[]|e]; simpl; repeat split; auto;
      try (intros [x|e']; simpl; repeat split; auto);
      try (intros [y|e'']; simpl; repeat split; auto).
  - exact I.
Qed.

Lemma within_weaken (ok ok' : Entry -> Prop) p :
  (forall e, ok e -> ok' e) -> within ok p -> within ok' p.
Proof.
  intros Hok. induction p as [|e|a k IH|cl k IH|op k IH|ps k IHps IHk]
    using Async_nested_ind; simpl; auto;
    intros [H1 H2]; (split; [|intros; auto]); auto.
  clear H2 IHk. induction IHps as [|q r Hq Hr IHr]; [exact I|].
  destruct H1 as [Hq1 Hr1]. split; [apply Hq, Hq1|apply IHr, Hr1].
Qed.

Lemma gesture_unstaged s g : within unstaged_footprint (gesture_handler s g).
Proof.
  eapply within_weaken; [|apply gesture_handler_wired].
  intros [a| |id op|]; simpl; auto.
  - destruct a; simpl; auto; contradiction.
  - destruct op; simpl; auto. intros [-> _]. discriminate.
Qed.

Lemma unstaged_kept a s :
  unstaged_footprint (did a) -> State.deleteConfirmation s = None ->
  State.deleteConfirmation (perform a s) = None.
Proof. destruct a, s; simpl; auto. Qed.

Lemma run_unstaged browser inputs : forall c,
  State.deleteConfirmation (Config.state c) = None ->
  Forall (swithin unstaged_footprint) (Config.pool c) ->
  exists es,
    Config.log (any_run browser inputs c) = Config.log c ++ es
    /\ Forall unstaged_footprint es
    /\ State.deleteConfirmation (Config.state (any_run browser inputs c)) = None.
Proof.
  induction inputs as [|i r IH]; intros c Hs Hpool; simpl.
  - exists []. rewrite app_nil_r. auto.
  - assert (Hstep : extends unstaged_footprint c (any_step browser c i)
                    /\ Forall (swithin unstaged_footprint)
                         (Config.pool (any_step browser c i))).
    { destruct i as [ev|g]; simpl.
      - destruct ev;
          try (apply spawn_within; [apply handler_unstaged, Hs|exact Hpool]).
        apply deliver_within; [intros; exact I|exact Hpool].
      - destruct g;
          try (apply spawn_within;
               [apply (gesture_unstaged (Config.state c))|exact Hpool]).
        apply deliver_within; [intros; exact I|exact Hpool]. }
    destruct Hstep as [(es1 & L1 & F1 & S1) P1].
    assert (Hs1 : State.deleteConfirmation (Config.state (any_step browser c i))
                  = None).
    { rewrite S1. clear - F1 Hs. revert Hs. generalize (Config.state c).
      induction F1 as [|e l He Hl IHl]; intros s Hs; [exact Hs|].
      simpl. apply IHl. destruct e; auto. now apply unstaged_kept. }
    destruct (IH _ Hs1 P1) as (es2 & L2 & F2 & S2).
    exists (es1 ++ es2). rewrite L2, L1, <- app_assoc.
    repeat split; auto. apply Forall_app. auto.
Qed.

(** X4: the staged delete is out of reach. No handler of the component
    stages a confirmation: the click on a delete button, whose handler has
    an empty body, the four drag handlers and every other handler, wired to
    the panel or not. So from a state with none staged, whatever is done, in
    whatever order, uploads and confirmations included, and whatever the
    backend answers, none is ever staged and no [DELETE] is ever sent: a
    confirmation with nothing staged returns at once. *)
Theorem nothing_staged_nothing_deleted
    (browser : forall c : SyncCall, Outcome (sret c))
    (t : list FileNode) (x : gset string) (sel : option Selected.t)
    (l : bool) (e : option string) (g : bool)
    (inputs : list (Event + Gesture)) (f : FileNode) :
  let unstaged := State.mk t x sel l e None g in
  let c := any_run browser inputs (Config.start unstaged) in
  State.deleteConfirmation (Config.state c) = None
  /\ Forall (fun op => match op with
                       | fetch _ m _ => m <> DELETE
                       | _ => True
                       end) (promises (Config.log c))
  /\ step browser (Config.start unstaged) (click_delete f)
     = Config.start unstaged.
Proof.
  intros unstaged c.
  destruct (run_unstaged browser inputs (Config.start unstaged))
    as (es & L & F & S); [reflexivity|constructor|].
  fold c in L, S. split; [exact S|]. split; [|reflexivity].
  rewrite L. simpl. clear - F.
  induction F as [|en r He Hr IH]; [constructor|].
  destruct en as [| |id op|]; simpl; auto.
Qed.

(** ** The requests carry the path whole *)

Lemma unescape_encode_char c r :
  unescape (Js.percentEncode (String c r))
  = String c (unescape (Js.percentEncode r)).
Proof. destruct c as [[] [] [] [] [] [] [] []]; reflexivity. Qed.

Lemma unescape_encode s : unescape (Js.percentEncode s) = s.
Proof.
  induction s as [|c r IH]; [reflexivity|].
  rewrite unescape_encode_char. now rewrite IH.
Qed.

Lemma encode_char_undelimited c r :
  string_forallb (fun c => negb (delimiter c)) (Js.percentEncode (String c r))
  = string_forallb (fun c => negb (delimiter c)) (Js.percentEncode r).
Proof. destruct c as [[] [] [] [] [] [] [] []]; reflexivity. Qed.

Lemma encodeURIComponent_Some s component :
  Js.encodeURIComponent s = Some component -> component = Js.percentEncode s.
Proof.
  unfold Js.encodeURIComponent. destruct (Js.isWellFormed s); congruence.
Qed.

(** X19: the path goes into the request whole. What [encodeURIComponent]
    writes can be read back to the path, so two paths give the same request
    only when they are the same path; and it holds none of the characters
    that cut a URL into its parts, so that a path with [&], [?], [#], [/] or
    a space is still the one parameter [path] of the download request. When
    [encodeURIComponent] throws, no request is made. *)
Theorem request_carries_path
    (browser : forall c : SyncCall, Outcome (sret c))
    (s : State.t) (p q fileName : string) :
  let sent :=
    network_calls
      (Config.log (step browser (Config.start s) (click_download p fileName))) in
  match Js.encodeURIComponent p with
  | Some component =>
      unescape component = p
      /\ (Js.encodeURIComponent q = Some component <-> q = p)
      /\ string_forallb (fun c => negb (delimiter c)) component = true
      /\ sent = [fetch ("/api/workspace/download?path=" +:+ component) GET None]
  | None => sent = []
  end.
Proof.
  intros sent. subst sent.
  unfold step, spawn, handler, handleDownload, encodeURIComponent.
  destruct (Js.encodeURIComponent p) as [component|] eqn:E; [|reflexivity].
  pose proof (encodeURIComponent_Some _ _ E) as ->.
  split; [apply unescape_encode|]. split; [|split; [|reflexivity]].
  - split; [|now intros ->].
    intros H. apply encodeURIComponent_Some in H.
    rewrite <- (unescape_encode p), <- (unescape_encode q). now rewrite H.
  - clear E. induction p as [|c r IH]; [reflexivity|].
    now rewrite encode_char_undelimited.
Qed.

(** ** The gate looks at the end of the name only *)

Lemma string_app_assoc a b c : (a +:+ b) +:+ c = a +:+ (b +:+ c).
Proof.
  induction a as [|x a IH]; [reflexivity|].
  change (String x ((a +:+ b) +:+ c) = String x (a +:+ (b +:+ c))).
  now f_equal.
Qed.

Lemma caseless_refl a : caseless a a.
Proof. induction a; constructor; [now left|assumption]. Qed.

(** X20: the gate reads the end of the name and nothing else. Two names
    that differ in the case of their letters only, as [REPORT.JSON] and
    [report.json], are both previewable or both not; whatever is put in
    front of a previewable name, the name stays previewable; every
    allow-listed extension is previewable by itself and after any stem; and
    the empty name is not. *)
Theorem gate_reads_the_suffix (fileName other stem : string) :
  (caseless fileName other -> isTextFile fileName = isTextFile other)
  /\ isTextFile "REPORT.JSON" = isTextFile "report.json"
  /\ implb (isTextFile fileName) (isTextFile (stem +:+ fileName)) = true
  /\ Forall (fun ext => isTextFile (stem +:+ ext) = true) textExtensions
  /\ isTextFile "" = false.
Proof.
  split; [|split; [reflexivity|split; [|split; [|reflexivity]]]].
  - intros H. unfold isTextFile. now rewrite (caseless_lower _ _ H).
  - destruct (isTextFile fileName) eqn:E; [|reflexivity]. simpl.
    apply isTextFile_spec in E. destruct E as (stem0 & suffix & ext & -> & Hin).
    apply isTextFile_spec. exists (stem +:+ stem0), suffix, ext.
    split; [symmetry; apply string_app_assoc|exact Hin].
  - apply List.Forall_forall. intros ext Hext. apply isTextFile_spec.
    exists stem, ext, ext. split; [reflexivity|].
    split; [exact Hext|apply caseless_refl].
Qed.
